(** * FormFiller: form-field classification and synthetic filling

    A shallow embedding of [src/utilities/web/formFiller.ts]: the class
    [FormFiller] with its classifier ([determineFieldType]), value generator
    ([generateValue], [getRandomSelectOption]), scanner ([detectFormFields])
    and filler ([applyValueToField], [fillField], [fillForm], [autoFillForm]).

    Modelling choices, all stated once here:
    - An [async] method is a computation in the monad [M]: it threads the
      mutable part of the object ([this.faker], the random draws consumed)
      and the trace of requests sent to the browser, and it either returns
      or throws.  A throw keeps the state reached so far, as in JavaScript.
    - The page is a fixed element tree for the duration of a call.  A locator
      is a lazy query; every request made through it is recorded in the
      trace before it is resolved (strictly: exactly one match is needed).
    - Strings are byte strings; [toLowerCase] folds ASCII letters only.
    - JavaScript numbers are integers ([Z]); fractions and NaN are left out.
    - An object used as a dictionary ([fieldTypeMappings], the result of
      [fillForm]) is a finite map on its own keys together with what a
      plain object inherits: a read finds the members of
      [Object.prototype], and a write to [__proto__] creates no key.
    - Selectors are well-formed: a request whose selector Playwright cannot
      parse is outside the model.
    - Faker and [Math.random] are external: they are parameters. *)

From Stdlib Require Import ZArith List String Ascii Bool Lia.
From stdpp Require Import base option list strings pretty gmap.

Open Scope string_scope.

(** ** Strings *)

Definition asciiToLower (c : ascii) : ascii :=
  let n := nat_of_ascii c in
  if (65 <=? n)%nat && (n <=? 90)%nat then ascii_of_nat (n + 32) else c.

(** [s.toLowerCase()] *)
Fixpoint toLowerCase (s : string) : string :=
  match s with
  | EmptyString => EmptyString
  | String c s' => String (asciiToLower c) (toLowerCase s')
  end.

(** [s.includes(pattern)] *)
Fixpoint includes (s pattern : string) : bool :=
  String.prefix pattern s ||
  match s with
  | EmptyString => false
  | String _ s' => includes s' pattern
  end.

(** JavaScript truthiness of a string: only the empty string is falsy. *)
Definition truthy (s : string) : bool :=
  match s with EmptyString => false | String _ _ => true end.

(** [x || fallback] for [x : string | null]. *)
Definition orElse (x : option string) (fallback : string) : string :=
  match x with
  | Some s => if truthy s then s else fallback
  | None => fallback
  end.

(** The double-quote character, for selectors that embed quoted values. *)
Definition dq : string := String (ascii_of_nat 34) EmptyString.

(** [s.split(sep)[0]] for a one-character separator. *)
Fixpoint splitHead (sep : ascii) (s : string) : string :=
  match s with
  | EmptyString => EmptyString
  | String c s' => if Ascii.eqb c sep then EmptyString else String c (splitHead sep s')
  end.

(** ** Data model *)

(** The value of a slot typed [FieldType].  The enumeration has twenty
    members; at run time the slot can also hold a value that is none of
    them: [determineFieldType] returns a member its table inherits from
    [Object.prototype] when the declared type names one.  [Inherited m]
    is the value of [Object.prototype[m]]. *)
Inductive FieldType :=
  | TEXT | EMAIL | PASSWORD | PHONE | NUMBER | DATE | SELECT | CHECKBOX
  | RADIO | TEXTAREA | FILE | NAME | ADDRESS | CITY | STATE | ZIP
  | COUNTRY | COMPANY | URL | CUSTOM
  | Inherited (member : string).

#[global] Instance FieldType_eq_dec : EqDecision FieldType.
Proof. solve_decision. Defined.

(** A JavaScript [Date], as far as the filler looks at it. *)
Record JsDate := { toISOString : string; dateToString : string }.

(** [string | boolean | number | Date] *)
Inductive Value :=
  | VString (s : string)
  | VBoolean (b : bool)
  | VNumber (n : Z)
  | VDate (d : JsDate).

(** [String(value)] *)
Definition String_ (v : Value) : string :=
  match v with
  | VString s => s
  | VBoolean true => "true"
  | VBoolean false => "false"
  | VNumber n => pretty n
  | VDate d => dateToString d
  end.

(** A Playwright locator: [page.locator(selector)] or [locator.nth(i)]. *)
Inductive Locator :=
  | Loc (selector : string)
  | Nth (parent : Locator) (index : nat).

(** [string | Locator], the two ways a [FieldConfig] names its element. *)
Inductive Target :=
  | BySelector (s : string)
  | ByLocator (l : Locator).

Inductive Action :=
  | SelectOption (value : string)
  | Check
  | Uncheck
  | SetInputFiles (path : string)
  | Fill (text : string)
  | Click
  | Press (key : string)
  | Blur.

Inductive Error :=
  | UnsupportedLocale (locale : string)
  | TimeoutError (l : Locator)
  | StrictModeViolation (l : Locator)
  | NotActionable (l : Locator) (a : Action)
  | FakerError (lo hi : Z)
  | CallerError (message : string).

Inductive Result (A : Type) :=
  | Ok (a : A)
  | Throw (e : Error).
Arguments Ok {A} a.
Arguments Throw {A} e.

Record FieldConfig := {
  selector : Target;
  type : FieldType;
  valueGenerator : option (unit -> Result Value);
  min : option Z;
  max : option Z;
  options : option (list string);
  clickAfterFill : bool;
  pressEnterAfterFill : bool;
  blurAfterFill : bool;
  filePath : option string;
  locale : option string;
}.

(** [Partial<Omit<FieldConfig, "selector">>]: every member may be left out. *)
Record FieldOverride := {
  o_type : option FieldType;
  o_valueGenerator : option (option (unit -> Result Value));
  o_min : option (option Z);
  o_max : option (option Z);
  o_options : option (option (list string));
  o_clickAfterFill : option bool;
  o_pressEnterAfterFill : option bool;
  o_blurAfterFill : option bool;
  o_filePath : option (option string);
  o_locale : option (option string);
}.

Record AutoFillOptions := {
  formSelector : option string;
  excludeSelectors : option (list string);
  customFields : option (list (string * FieldOverride));
  submitAfterFill : option bool;
  submitSelector : option string;
  a_locale : option string;
  maxElements : option Z;
}.

(** ** The page *)

Record SelectOptionElement := { optionValue : string; optionDisabled : bool }.

Record Element := {
  tagName : string;
  attributes : list (string * string);
  inputType : option string;
  selectOptions : option (list SelectOptionElement);
  visible : bool;
}.

(** The value of an attribute, [None] for [null]. *)
Definition attributeOf (e : Element) (name : string) : option string :=
  snd <$> find (fun kv => String.eqb (fst kv) name) (attributes e).

Record Page := {
  querySelectorAll : string -> list Element;
  accepts : Element -> Action -> bool;
}.

Inductive Event :=
  | EvLocator (selector : string)
  | EvCount (l : Locator)
  | EvGetAttribute (l : Locator) (name : string)
  | EvTagName (l : Locator)
  | EvInputType (l : Locator)
  | EvOptions (l : Locator)
  | EvIsVisible (l : Locator)
  | EvAction (l : Locator) (a : Action).

(** ** The generator *)

Inductive LocaleDefinition := en.

(** A [Faker] object: its identity and the locale it was built with. *)
Record Faker := { instance : nat; definition : LocaleDefinition }.

#[global] Instance LocaleDefinition_eq_dec : EqDecision LocaleDefinition.
Proof. solve_decision. Defined.
#[global] Instance Faker_eq_dec : EqDecision Faker.
Proof. solve_decision. Defined.

(** The string-valued Faker calls the filler makes. *)
Inductive FakerCall :=
  | LoremWords (n : nat)
  | InternetEmail
  | InternetPassword (length : nat) (memorable : bool)
  | PhoneNumber
  | LoremParagraphs (n : nat)
  | PersonFullName
  | LocationStreetAddress
  | LocationCity
  | LocationState
  | LocationZipCode
  | LocationCountry
  | CompanyName
  | InternetUrl
  | LoremWord.

(** ** State and the monad of methods *)

Record FormFillerState := {
  faker : Faker;
  created : nat;
  draws : nat;
  trace : list Event;
}.

Definition M (A : Type) : Type := FormFillerState -> Result A * FormFillerState.

#[global] Instance M_ret : MRet M := fun A a s => (Ok a, s).
#[global] Instance M_bind : MBind M := fun A B f m s =>
  match m s with
  | (Ok a, s') => f a s'
  | (Throw e, s') => (Throw e, s')
  end.

Definition throw {A} (e : Error) : M A := fun s => (Throw e, s).

(** The state after the events [evs] (newest first) were recorded. *)
Definition logged (evs : list Event) (s : FormFillerState) : FormFillerState :=
  {| faker := faker s; created := created s; draws := draws s;
     trace := (evs ++ trace s)%list |}.

Definition emit (ev : Event) : M unit := fun s => (Ok tt, logged [ev] s).

Definition getFaker : M Faker := fun s => (Ok (faker s), s).

Definition setFaker (f : Faker) : M unit := fun s =>
  (Ok tt, {| faker := f; created := created s; draws := draws s;
             trace := trace s |}).

(** [new Faker({ locale })]: a fresh object. *)
Definition newFaker (d : LocaleDefinition) : M Faker := fun s =>
  (Ok {| instance := created s; definition := d |},
   {| faker := faker s; created := S (created s); draws := draws s;
      trace := trace s |}).

(** The index of the next random draw; the draw is consumed. *)
Definition nextDraw : M nat := fun s =>
  (Ok (draws s),
   {| faker := faker s; created := created s; draws := S (draws s);
      trace := trace s |}).

Definition liftResult {A} (r : Result A) : M A := fun s => (r, s).

(** A [for] loop over [xs] that threads the accumulator [acc]. *)
Fixpoint forEach {A B} (body : B -> A -> M B) (xs : list A) (acc : B) : M B :=
  match xs with
  | [] => mret acc
  | x :: xs' => acc' ← body acc x; forEach body xs' acc'
  end.

(** ** The static keyword table

    [FormFiller.fieldTypeMappings], in source order: [Object.entries] walks
    it in this order, and the keys are pairwise distinct. *)
Definition fieldTypeMappings : list (string * FieldType) :=
  [ ("text", TEXT); ("email", EMAIL); ("password", PASSWORD);
    ("number", NUMBER); ("date", DATE); ("checkbox", CHECKBOX);
    ("radio", RADIO); ("file", FILE); ("url", URL);
    ("name", NAME); ("first", NAME); ("firstname", NAME);
    ("first-name", NAME); ("first_name", NAME); ("last", NAME);
    ("lastname", NAME); ("last-name", NAME); ("last_name", NAME);
    ("fullname", NAME); ("full-name", NAME); ("full_name", NAME);
    ("e-mail", EMAIL); ("mail", EMAIL);
    ("pass", PASSWORD);
    ("pwd", PASSWORD);
    ("phone", PHONE); ("telephone", PHONE); ("tel", PHONE);
    ("mobile", PHONE); ("cell", PHONE);
    ("address", ADDRESS); ("street", ADDRESS); ("street-address", ADDRESS);
    ("street_address", ADDRESS); ("addr", ADDRESS); ("line1", ADDRESS);
    ("address-line1", ADDRESS); ("address_line1", ADDRESS);
    ("city", CITY); ("town", CITY); ("locality", CITY);
    ("state", STATE); ("province", STATE); ("region", STATE);
    ("county", STATE);
    ("zip", ZIP); ("zipcode", ZIP); ("zip-code", ZIP); ("zip_code", ZIP);
    ("postal", ZIP); ("postalcode", ZIP); ("postal-code", ZIP);
    ("postal_code", ZIP);
    ("country", COUNTRY); ("nation", COUNTRY);
    ("company", COMPANY); ("organization", COMPANY);
    ("organisation", COMPANY); ("business", COMPANY); ("firm", COMPANY);
    ("website", URL); ("web-site", URL); ("web_site", URL);
    ("homepage", URL); ("home-page", URL); ("home_page", URL); ("web", URL);
    ("comment", TEXTAREA); ("message", TEXTAREA); ("description", TEXTAREA);
    ("memo", TEXTAREA); ("notes", TEXTAREA) ].

(** The names of the members every plain object inherits from
    [Object.prototype]; each of them is a function or an object, hence
    truthy. *)
Definition objectPrototypeMembers : list string :=
  [ "constructor"; "__proto__"; "hasOwnProperty"; "isPrototypeOf";
    "propertyIsEnumerable"; "toLocaleString"; "toString"; "valueOf";
    "__defineGetter__"; "__defineSetter__"; "__lookupGetter__";
    "__lookupSetter__" ].

(** [table[key]] on a plain object: the own keys first, then the members
    inherited from [Object.prototype]; [None] for [undefined]. *)
Fixpoint lookupMapping (table : list (string * FieldType)) (key : string)
  : option FieldType :=
  match table with
  | [] =>
      if existsb (String.eqb key) objectPrototypeMembers
      then Some (Inherited key) else None
  | (k, t) :: rest => if String.eqb k key then Some t else lookupMapping rest key
  end.

(** The loop [for (const [pattern, fieldType] of Object.entries(table))
    if (text.includes(pattern.toLowerCase())) return fieldType]. *)
Fixpoint scanMappings (table : list (string * FieldType)) (text : string)
  : option FieldType :=
  match table with
  | [] => None
  | (pattern, fieldType) :: rest =>
      if includes text (toLowerCase pattern) then Some fieldType
      else scanMappings rest text
  end.

(** [getLocaleDefinition] *)
Definition getLocaleDefinition (locale : string) : Result LocaleDefinition :=
  if String.eqb locale "en" then Ok en else Throw (UnsupportedLocale locale).

(** The condition [if (locale)] on an optional string. *)
Definition requested (locale : option string) : option string :=
  match locale with
  | Some l => if truthy l then Some l else None
  | None => None
  end.

(** [array.findIndex(p)], [None] standing for -1. *)
Fixpoint findIndex {A} (p : A -> bool) (xs : list A) : option nat :=
  match xs with
  | [] => None
  | x :: xs' => if p x then Some 0%nat else S <$> findIndex p xs'
  end.

(** [field.selector === selector] *)
Definition selectorIs (s : string) (f : FieldConfig) : bool :=
  match selector f with
  | BySelector s' => String.eqb s' s
  | ByLocator _ => false
  end.

(** [{ ...field, ...override }] *)
Definition spread (f : FieldConfig) (o : FieldOverride) : FieldConfig :=
  {| selector := selector f;
     type := default (type f) (o_type o);
     valueGenerator := default (valueGenerator f) (o_valueGenerator o);
     min := default (min f) (o_min o);
     max := default (max f) (o_max o);
     options := default (options f) (o_options o);
     clickAfterFill := default (clickAfterFill f) (o_clickAfterFill o);
     pressEnterAfterFill :=
       default (pressEnterAfterFill f) (o_pressEnterAfterFill o);
     blurAfterFill := default (blurAfterFill f) (o_blurAfterFill o);
     filePath := default (filePath f) (o_filePath o);
     locale := default (locale f) (o_locale o) |}.

(** The loop [for (const selector in customFields)] of [autoFillForm]. *)
Fixpoint applyCustomFields (customFields : list (string * FieldOverride))
    (formFields : list FieldConfig) : list FieldConfig :=
  match customFields with
  | [] => formFields
  | (sel, o) :: rest =>
      applyCustomFields rest
        match findIndex (selectorIs sel) formFields with
        | Some fieldIndex =>
            match formFields !! fieldIndex with
            | Some f => <[fieldIndex := spread f o]> formFields
            | None => formFields
            end
        | None => formFields
        end
  end.

(** The three element kinds of [detectFormFields], in scanning order. *)
Definition fieldSelectors : list string :=
  [ "input:not([type=" +:+ dq +:+ "hidden" +:+ dq +:+ "]):not([type=" +:+ dq
      +:+ "submit" +:+ dq +:+ "]):not([type=" +:+ dq +:+ "button" +:+ dq
      +:+ "]):not([type=" +:+ dq +:+ "reset" +:+ dq +:+ "])";
    "select";
    "textarea" ].

(** The descriptor [{ selector, type }] pushed by the scanner. *)
Definition detected (sel : string) (t : FieldType) : FieldConfig :=
  {| selector := BySelector sel; type := t; valueGenerator := None;
     min := None; max := None; options := None; clickAfterFill := false;
     pressEnterAfterFill := false; blurAfterFill := false;
     filePath := None; locale := None |}.

(** The selector the scanner synthesizes for the [i]-th match of a kind. *)
Definition synthesize (formSelector elementSelector id name : string) (i : nat)
  : string :=
  if truthy id then "#" +:+ id
  else if truthy name then
    elementSelector +:+ "[name=" +:+ dq +:+ name +:+ dq +:+ "]"
  else
    formSelector +:+ " " +:+ elementSelector +:+ ":nth-child("
      +:+ pretty (i + 1)%nat +:+ ")".

(** [excludeSelectors.some(e => selector.includes(e))] *)
Definition excluded (excludeSelectors : list string) (sel : string) : bool :=
  existsb (fun excludeSelector => includes sel excludeSelector) excludeSelectors.

(** The unit interval of [Math.random()], as numerators over [2^53]. *)
Definition randomScale : Z := 2 ^ 53.

(** [Math.floor(r * n)] for a draw [r]. *)
Definition floorTimes (r : Z) (n : nat) : nat :=
  Z.to_nat ((r mod randomScale) * Z.of_nat n / randomScale).

(** [r >= 0.5] for a draw [r]. *)
Definition atLeastHalf (r : Z) : bool := (randomScale / 2 <=? r mod randomScale)%Z.

(** ** The collaborators

    What a [FormFiller] object is connected to: [this.page], the Faker
    library (string generators, [faker.number.int], [faker.date.recent],
    each reading the generator object and a draw) and [Math.random], by
    draw index. *)
Class World := {
  page : Page;
  fakerString : Faker -> FakerCall -> nat -> string;
  fakerInt : Faker -> Z -> Z -> nat -> Result Z;
  fakerDateRecent : Faker -> nat -> JsDate;
  mathRandom : nat -> Z;
}.

Section FormFiller.

Context {W : World}.

(** *** Requests to the browser *)

(** The elements a locator currently matches, in document order. *)
Fixpoint resolve (l : Locator) : list Element :=
  match l with
  | Loc sel => querySelectorAll page sel
  | Nth parent i =>
      match resolve parent !! i with
      | Some e => [e]
      | None => []
      end
  end.

(** Strict resolution: one element, or the request fails. *)
Definition element (l : Locator) : M Element :=
  match resolve l with
  | [e] => mret e
  | [] => throw (TimeoutError l)
  | _ => throw (StrictModeViolation l)
  end.

(** [this.page.locator(selector)] *)
Definition locator (sel : string) : M Locator :=
  _ ← emit (EvLocator sel); mret (Loc sel).

(** [typeof selector === "string" ? this.page.locator(selector) : selector] *)
Definition toLocator (t : Target) : M Locator :=
  match t with
  | BySelector s => locator s
  | ByLocator l => mret l
  end.

(** [locator.count()], for a selector Playwright can parse (it throws on
    one it cannot). *)
Definition count (l : Locator) : M nat :=
  _ ← emit (EvCount l); mret (length (resolve l)).

(** [locator.getAttribute(name)] *)
Definition getAttribute (l : Locator) (name : string) : M (option string) :=
  _ ← emit (EvGetAttribute l name);
  e ← element l;
  mret (attributeOf e name).

(** [locator.isVisible()] *)
Definition isVisible (l : Locator) : M bool :=
  _ ← emit (EvIsVisible l);
  match resolve l with
  | [] => mret false
  | [e] => mret (visible e)
  | _ => throw (StrictModeViolation l)
  end.

(** An action on the element: select, check, fill, click, ... *)
Definition perform (l : Locator) (a : Action) : M unit :=
  _ ← emit (EvAction l a);
  e ← element l;
  if accepts page e a then mret tt else throw (NotActionable l a).

(** [getTagName] *)
Definition getTagName (l : Locator) : M string :=
  _ ← emit (EvTagName l);
  e ← element l;
  mret (toLowerCase (tagName e)).

(** [getInputType] *)
Definition getInputType (l : Locator) : M (option string) :=
  _ ← emit (EvInputType l);
  e ← element l;
  mret (toLowerCase <$> inputType e).

(** The in-page function of [getRandomSelectOption]. *)
Definition liveOptions (e : Element) : list string :=
  match selectOptions e with
  | Some os =>
      optionValue <$>
        filter (fun o => truthy (optionValue o) && negb (optionDisabled o) = true) os
  | None => []
  end.

(** *** Generator calls *)

Definition random : M Z := k ← nextDraw; mret (mathRandom k).

Definition callFaker (c : FakerCall) : M Value :=
  f ← getFaker; k ← nextDraw; mret (VString (fakerString f c k)).


(** *** Classifier *)

(** [determineFieldType] *)
Definition determineFieldType (element : Locator)
    (inputType name id placeholder ariaLabel label : string) : M FieldType :=
  tagName ← getTagName element;
  if String.eqb tagName "select" then mret SELECT
  else if String.eqb tagName "textarea" then mret TEXTAREA
  else
    match (if truthy inputType
           then lookupMapping fieldTypeMappings (toLowerCase inputType)
           else None) with
    | Some fieldType => mret fieldType
    | None =>
    match scanMappings fieldTypeMappings (toLowerCase name) with
    | Some fieldType => mret fieldType
    | None =>
    match scanMappings fieldTypeMappings (toLowerCase id) with
    | Some fieldType => mret fieldType
    | None =>
    match scanMappings fieldTypeMappings (toLowerCase placeholder) with
    | Some fieldType => mret fieldType
    | None =>
    match scanMappings fieldTypeMappings (toLowerCase ariaLabel) with
    | Some fieldType => mret fieldType
    | None =>
    match scanMappings fieldTypeMappings (toLowerCase label) with
    | Some fieldType => mret fieldType
    | None => mret TEXT
    end end end end end end.

(** *** Value generator *)

(** [xs[Math.floor(r * xs.length)]]; the index is below the length. *)
Definition pick (xs : list string) (r : Z) : string :=
  default EmptyString (xs !! floorTimes r (length xs)).

(** [getRandomSelectOption] *)
Definition getRandomSelectOption (selector : Target) : M string :=
  locator ← toLocator selector;
  _ ← emit (EvOptions locator);
  e ← element locator;
  let options := liveOptions e in
  if (length options =? 0)%nat then mret EmptyString
  else r ← random; mret (pick options r).

(** [generateValue] *)
Definition generateValue (fieldConfig : FieldConfig) : M Value :=
  match valueGenerator fieldConfig with
  | Some generator => liftResult (generator tt)
  | None =>
      match type fieldConfig with
      | TEXT => callFaker (LoremWords 3)
      | EMAIL => callFaker InternetEmail
      | PASSWORD => callFaker (InternetPassword 12 true)
      | PHONE => callFaker PhoneNumber
      | NUMBER =>
          let lo := default 1%Z (min fieldConfig) in
          let hi := default 100%Z (max fieldConfig) in
          f ← getFaker; k ← nextDraw;
          n ← liftResult (fakerInt f lo hi k);
          mret (VNumber n)
      | DATE =>
          f ← getFaker; k ← nextDraw;
          mret (VString (splitHead "T" (toISOString (fakerDateRecent f k))))
      | SELECT =>
          match options fieldConfig with
          | Some (o :: os) =>
              r ← random; mret (VString (pick (o :: os) r))
          | _ => s ← getRandomSelectOption (selector fieldConfig); mret (VString s)
          end
      | CHECKBOX | RADIO => r ← random; mret (VBoolean (atLeastHalf r))
      | TEXTAREA => callFaker (LoremParagraphs 2)
      | NAME => callFaker PersonFullName
      | ADDRESS => callFaker LocationStreetAddress
      | CITY => callFaker LocationCity
      | STATE => callFaker LocationState
      | ZIP => callFaker LocationZipCode
      | COUNTRY => callFaker LocationCountry
      | COMPANY => callFaker CompanyName
      | URL => callFaker InternetUrl
      | _ => callFaker LoremWord
      end
  end.

(** *** Filler *)

(** [if (flag) await action] *)
Definition when (flag : bool) (action : M unit) : M unit :=
  if flag then action else mret tt.

(** [applyValueToField] *)
Definition applyValueToField (locator : Locator) (fieldConfig : FieldConfig)
    (value : Value) : M unit :=
  tagName ← getTagName locator;
  inputType ← getInputType locator;
  _ ← (if String.eqb tagName "select" then
         match value with
         | VString s => perform locator (SelectOption s)
         | _ => mret tt
         end
       else if String.eqb tagName "input"
               && (bool_decide (inputType = Some "checkbox")
                   || bool_decide (inputType = Some "radio")) then
         match value with
         | VBoolean true => perform locator Check
         | VBoolean false => perform locator Uncheck
         | _ => mret tt
         end
       else
         match (if String.eqb tagName "input"
                   && bool_decide (inputType = Some "file")
                then requested (filePath fieldConfig) else None) with
         | Some path => perform locator (SetInputFiles path)
         | None => perform locator (Fill (String_ value))
         end);
  _ ← when (clickAfterFill fieldConfig) (perform locator Click);
  _ ← when (pressEnterAfterFill fieldConfig) (perform locator (Press "Enter"));
  when (blurAfterFill fieldConfig) (perform locator Blur).

(** [fillField] *)
Definition fillField (fieldConfig : FieldConfig) : M Value :=
  originalFaker ← getFaker;
  _ ← match requested (locale fieldConfig) with
      | Some l =>
          localeDefinition ← liftResult (getLocaleDefinition l);
          f ← newFaker localeDefinition;
          setFaker f
      | None => mret tt
      end;
  locator ← toLocator (selector fieldConfig);
  value ← generateValue fieldConfig;
  _ ← applyValueToField locator fieldConfig value;
  _ ← match requested (locale fieldConfig) with
      | Some _ => setFaker originalFaker
      | None => mret tt
      end;
  mret value.

(** The key under which [fillForm] stores a field's value. *)
Definition selectorKey (fieldValues : gmap string Value) (t : Target) : string :=
  match t with
  | BySelector s => s
  | ByLocator _ => "field-" +:+ pretty (size fieldValues)
  end.

(** [object[key] = value] on a plain object, as far as its own keys go:
    the key [__proto__] names the prototype accessor, so that assignment
    creates no key (it changes the prototype or does nothing). *)
Definition assign (key : string) (value : Value) (object : gmap string Value)
  : gmap string Value :=
  if String.eqb key "__proto__" then object else <[key := value]> object.

(** The body of the loop of [fillForm]. *)
Definition fillNext (fieldValues : gmap string Value) (fieldConfig : FieldConfig)
  : M (gmap string Value) :=
  value ← fillField fieldConfig;
  mret (assign (selectorKey fieldValues (selector fieldConfig)) value fieldValues).

(** [fillForm] *)
Definition fillForm (fieldsConfig : list FieldConfig) : M (gmap string Value) :=
  forEach fillNext fieldsConfig ∅.

(** *** Scanner *)

(** The body of the inner loop of [detectFormFields], for index [i]. *)
Definition scanElement (formSelector : string) (excludeSelectors : list string)
    (elementSelector : string) (elements : Locator)
    (formFields : list FieldConfig) (i : nat) : M (list FieldConfig) :=
  let element := Nth elements i in
  name ← getAttribute element "name";
  id ← getAttribute element "id";
  type ← getAttribute element "type";
  placeholder ← getAttribute element "placeholder";
  ariaLabel ← getAttribute element "aria-label";
  label ← getAttribute element "label";
  let name := orElse name EmptyString in
  let id := orElse id EmptyString in
  let type := orElse type EmptyString in
  let placeholder := orElse placeholder EmptyString in
  let ariaLabel := orElse ariaLabel EmptyString in
  let label := orElse label EmptyString in
  let selector := synthesize formSelector elementSelector id name i in
  if excluded excludeSelectors selector then mret formFields
  else
    fieldType ← determineFieldType element type name id placeholder ariaLabel label;
    mret (formFields ++ [detected selector fieldType])%list.

(** The outer loop of [detectFormFields], over the kinds still to scan. *)
Fixpoint scanKinds (formSelector : string) (excludeSelectors : list string)
    (maxElements : Z) (kinds : list string) (formFields : list FieldConfig)
  : M (list FieldConfig) :=
  match kinds with
  | [] => mret formFields
  | elementSelector :: kinds' =>
      elements ← locator (formSelector +:+ " " +:+ elementSelector);
      n ← count elements;
      let count := Z.min (Z.of_nat n) maxElements in
      formFields ←
        forEach (scanElement formSelector excludeSelectors elementSelector elements)
          (seq 0 (Z.to_nat count)) formFields;
      if (maxElements <=? Z.of_nat (length formFields))%Z then mret formFields
      else scanKinds formSelector excludeSelectors maxElements kinds' formFields
  end.

(** [detectFormFields] *)
Definition detectFormFields (formSelector : string)
    (excludeSelectors : list string) (maxElements : Z) : M (list FieldConfig) :=
  scanKinds formSelector excludeSelectors maxElements fieldSelectors [].

(** *** Orchestrator *)

(** The submission step of [autoFillForm]. *)
Definition submit (submitSelector : string) (formFields : list FieldConfig)
  : M unit :=
  submitButton ← locator submitSelector;
  isVisible ← isVisible submitButton;
  match isVisible with
  | true => perform submitButton Click
  | false =>
      match last formFields with
      | Some lastField =>
          lastLocator ← toLocator (selector lastField);
          perform lastLocator (Press "Enter")
      | None => mret tt
      end
  end.

(** [autoFillForm] *)
Definition autoFillForm (options : AutoFillOptions) : M (gmap string Value) :=
  let formSelector := default "form" (formSelector options) in
  let excludeSelectors := default [] (excludeSelectors options) in
  let customFields := default [] (customFields options) in
  let submitAfterFill := default false (submitAfterFill options) in
  let submitSelector :=
    default ("button[type='submit']") (submitSelector options) in
  let locale := a_locale options in
  let maxElements := default 50%Z (maxElements options) in
  originalFaker ← getFaker;
  _ ← match requested locale with
      | Some l =>
          localeDefinition ← liftResult (getLocaleDefinition l);
          f ← newFaker localeDefinition;
          setFaker f
      | None => mret tt
      end;
  formFields ← detectFormFields formSelector excludeSelectors maxElements;
  let formFields := applyCustomFields customFields formFields in
  fieldValues ← fillForm formFields;
  _ ← when submitAfterFill (submit submitSelector formFields);
  _ ← match requested locale with
      | Some _ => setFaker originalFaker
      | None => mret tt
      end;
  mret fieldValues.

End FormFiller.

(** ** Definitions the statements are written in

    Pure readings of what the methods compute, and the predicates of the
    design document; the theorems below relate the code to them. *)

(** Strict priority order: the first decisive rule wins, [TEXT] if none. *)
Fixpoint firstDecisive (rules : list (option FieldType)) : FieldType :=
  match rules with
  | [] => TEXT
  | Some t :: _ => t
  | None :: rules' => firstDecisive rules'
  end.

(** What the table yields for a declared control type, compared without
    regard to case: the category of the keyword it is, or the member it
    names on [Object.prototype]. *)
Definition declaredCategory (declared : string) : option FieldType :=
  if truthy declared
  then lookupMapping fieldTypeMappings (toLowerCase declared)
  else None.

(** The category a free-text signal suggests: the first table entry whose
    keyword occurs in the text, case-insensitively. *)
Definition textSignal (text : string) : option FieldType :=
  scanMappings fieldTypeMappings (toLowerCase text).

(** The classifier as an ordered list of rules. *)
Definition classify (tag declared name id placeholder ariaLabel label : string)
  : FieldType :=
  firstDecisive
    [ if String.eqb tag "select" then Some SELECT else None;
      if String.eqb tag "textarea" then Some TEXTAREA else None;
      declaredCategory declared;
      textSignal name; textSignal id; textSignal placeholder;
      textSignal ariaLabel; textSignal label ].

(** The locator a target denotes. *)
Definition locatorOf (t : Target) : Locator :=
  match t with
  | BySelector s => Loc s
  | ByLocator l => l
  end.

(** The actions among the events of a trace. *)
Definition actionsOf (evs : list Event) : list (Locator * Action) :=
  omap (fun ev => match ev with EvAction l a => Some (l, a) | _ => None end) evs.

Section Scanned.

Context {W : World}.

(** What the scanner reports for candidate [e] at position [i] of a kind:
    its synthesized selector and its category. *)
Definition describe (formSelector elementSelector : string) (i : nat)
    (e : Element) : string * FieldType :=
  let name := orElse (attributeOf e "name") EmptyString in
  let id := orElse (attributeOf e "id") EmptyString in
  let type := orElse (attributeOf e "type") EmptyString in
  let placeholder := orElse (attributeOf e "placeholder") EmptyString in
  let ariaLabel := orElse (attributeOf e "aria-label") EmptyString in
  let label := orElse (attributeOf e "label") EmptyString in
  (synthesize formSelector elementSelector id name i,
   classify (toLowerCase (tagName e)) type name id placeholder ariaLabel label).

(** The candidates of a kind, in discovery order. *)
Definition candidates (formSelector elementSelector : string) : list Element :=
  querySelectorAll page (formSelector +:+ " " +:+ elementSelector).

(** The candidates of a kind the loop of [detectFormFields] looks at: the
    first [maxElements] of that kind, whatever was collected before. *)
Definition examined (formSelector : string) (maxElements : Z)
    (elementSelector : string) : list Element :=
  take (Z.to_nat maxElements) (candidates formSelector elementSelector).

(** The descriptors the loop adds for one kind: one for each examined
    candidate whose selector is not excluded. *)
Definition contribution (formSelector : string) (excludeSelectors : list string)
    (maxElements : Z) (elementSelector : string) : list FieldConfig :=
  (fun d => detected d.1 d.2) <$>
    filter (fun d => excluded excludeSelectors d.1 = false)
      (imap (describe formSelector elementSelector)
         (examined formSelector maxElements elementSelector)).

(** What [detectFormFields] computes: kinds are scanned in order, and the
    total is compared with [maxElements] after each kind. *)
Fixpoint collected (formSelector : string) (excludeSelectors : list string)
    (maxElements : Z) (kinds : list string) (formFields : list FieldConfig)
  : list FieldConfig :=
  match kinds with
  | [] => formFields
  | elementSelector :: kinds' =>
      let formFields' :=
        (formFields ++
         contribution formSelector excludeSelectors maxElements elementSelector)%list in
      if (maxElements <=? Z.of_nat (length formFields'))%Z then formFields'
      else collected formSelector excludeSelectors maxElements kinds' formFields'
  end.

End Scanned.

(** How many descriptors the scanner returns, when it returns. *)
Definition descriptorCount {W : World} (formSelector : string)
    (excludeSelectors : list string) (maxElements : Z) (s : FormFillerState)
  : option nat :=
  match fst (detectFormFields formSelector excludeSelectors maxElements s) with
  | Ok formFields => Some (length formFields)
  | Throw _ => None
  end.

(** The documented contract of [faker.number.int({ min, max })]: the result
    is an integer between the bounds, both included, and the call throws
    only when [max] is below [min]. *)
Definition fakerIntContract (W : World) : Prop :=
  (forall f lo hi k n, fakerInt f lo hi k = Ok n -> (lo <= n <= hi)%Z)
  /\ (forall f lo hi k, (lo <= hi)%Z -> exists n, fakerInt f lo hi k = Ok n).

(** The live element exposes no enabled option with a non-empty value. *)
Definition noLiveOption (e : Element) : Prop :=
  forall os, selectOptions e = Some os ->
    Forall (fun o => optionValue o = EmptyString \/ optionDisabled o = true) os.

(** The events [applyValueToField] may add once the value is applied. *)
Definition postAction (l : Locator) (ev : Event) : Prop :=
  ev = EvAction l Click \/ ev = EvAction l (Press "Enter") \/ ev = EvAction l Blur.

(** A method leaves [this.faker] as it found it, however it ends. *)
Definition steady {A} (m : M A) : Prop :=
  forall s, faker (m s).2 = faker s.

(** [pattern] occurs in [s] as a substring. *)
Definition occursIn (pattern s : string) : Prop :=
  exists before after, s = before +:+ pattern +:+ after.

(** A selector that contains none of the exclude substrings. *)
Definition retained (excludeSelectors : list string) (sel : string) : Prop :=
  forall excludeSelector,
    excludeSelector ∈ excludeSelectors -> ~ occursIn excludeSelector sel.

(** [kept] is the sub-list of the elements of a list that satisfy [P], in
    order. *)
Inductive Kept {A} (P : A -> Prop) : list A -> list A -> Prop :=
  | Kept_nil : Kept P [] []
  | Kept_keep x l kept : P x -> Kept P l kept -> Kept P (x :: l) (x :: kept)
  | Kept_skip x l kept : ~ P x -> Kept P l kept -> Kept P (x :: l) kept.

(** [r] is the value of the first entry of a table whose keyword,
    lower-cased, occurs in [text]; [None] when there is no such entry. *)
Inductive FirstMatch (text : string)
  : list (string * FieldType) -> option FieldType -> Prop :=
  | FirstMatch_none : FirstMatch text [] None
  | FirstMatch_here pattern t rest :
      occursIn (toLowerCase pattern) text ->
      FirstMatch text ((pattern, t) :: rest) (Some t)
  | FirstMatch_later pattern t rest r :
      ~ occursIn (toLowerCase pattern) text ->
      FirstMatch text rest r ->
      FirstMatch text ((pattern, t) :: rest) r.

(** The first kind the scanner looks for: the eligible inputs. *)
Definition inputKind : string := hd EmptyString fieldSelectors.

(** The selector a scanned descriptor carries is not excluded. *)
Definition notExcluded (excludeSelectors : list string) (f : FieldConfig) : Prop :=
  exists sel, selector f = BySelector sel /\ excluded excludeSelectors sel = false.

(** A method only reads the page: however it ends, the events it adds hold
    no action. *)
Definition quiet {A} (m : M A) : Prop :=
  forall s, exists evs,
    trace (m s).2 = (evs ++ trace s)%list /\ actionsOf evs = [].

(** The post-action requests a configuration asks for, in the order the
    filler sends them. *)
Definition postRequests (l : Locator) (fieldConfig : FieldConfig)
  : list (Locator * Action) :=
  ((if clickAfterFill fieldConfig then [(l, Click)] else []) ++
   (if pressEnterAfterFill fieldConfig then [(l, Press "Enter")] else []) ++
   (if blurAfterFill fieldConfig then [(l, Blur)] else []))%list.

(** The events recorded when a target is turned into a locator. *)
Definition locating (t : Target) : list Event :=
  match t with
  | BySelector sel => [EvLocator sel]
  | ByLocator _ => []
  end.

(** The string selectors among the targets of a list of descriptors. *)
Definition stringSelectors (fields : list FieldConfig) : list string :=
  omap (fun f => match selector f with
                 | BySelector sel => Some sel
                 | ByLocator _ => None
                 end) fields.

(** ** Example pages *)

Definition plainElement (tag : string) (attrs : list (string * string))
    (ty : option string) : Element :=
  {| tagName := tag; attributes := attrs; inputType := ty;
     selectOptions := if String.eqb tag "SELECT" then Some [] else None;
     visible := true |}.

Definition inputA : Element :=
  plainElement "INPUT" [("id", "a"); ("type", "text")] (Some "text").
Definition inputB : Element :=
  plainElement "INPUT" [("id", "b"); ("type", "email")] (Some "email").
Definition inputCaptcha : Element :=
  plainElement "INPUT" [("id", "captcha"); ("type", "text")] (Some "text").
Definition inputUpload : Element :=
  plainElement "INPUT" [("id", "upload"); ("type", "file")] (Some "file").
Definition selectC : Element := plainElement "SELECT" [("id", "c")] None.
Definition selectD : Element := plainElement "SELECT" [("id", "d")] None.
Definition hiddenSubmit : Element :=
  {| tagName := "BUTTON"; attributes := [("type", "submit")]; inputType := None;
     selectOptions := None; visible := false |}.

(** A page given by the matches of each selector it answers. *)
Fixpoint matches (table : list (string * list Element)) (sel : string)
  : list Element :=
  match table with
  | [] => []
  | (k, es) :: rest => if String.eqb k sel then es else matches rest sel
  end.

Definition pageOf (table : list (string * list Element)) : Page :=
  {| querySelectorAll := matches table; accepts := fun _ _ => true |}.

(** A Faker stand-in: [faker.number.int] throws when [max < min] and
    otherwise returns [min] plus the draw reduced to the range. *)
Definition worldOf (p : Page) : World :=
  {| page := p;
     fakerString := fun _ _ _ => "lorem";
     fakerInt := fun _ lo hi k =>
       if (hi <? lo)%Z then Throw (FakerError lo hi)
       else Ok (lo + Z.of_nat k mod (hi - lo + 1))%Z;
     fakerDateRecent := fun _ _ =>
       {| toISOString := "2024-05-17T10:20:30.000Z";
          dateToString := "Fri May 17 2024" |};
     mathRandom := fun k => Z.of_nat k |}.

Definition inputsOf (form : string) : string := form +:+ " " +:+ hd EmptyString fieldSelectors.

(** Two inputs and two dropdowns. *)
Definition crowdedPage : Page :=
  pageOf [ (inputsOf "form", [inputA; inputB]);
           ("form select", [selectC; selectD]);
           ("#a", [inputA]); ("#b", [inputB]);
           ("#c", [selectC]); ("#d", [selectD]) ].

(** A captcha input ahead of an ordinary input. *)
Definition captchaPage : Page :=
  pageOf [ (inputsOf "form", [inputCaptcha; inputA]);
           ("#captcha", [inputCaptcha]); ("#a", [inputA]) ].

(** The same form without the captcha input. *)
Definition captchaFreePage : Page :=
  pageOf [ (inputsOf "form", [inputA]); ("#a", [inputA]) ].

(** A form with one input and an invisible submit button. *)
Definition invisibleSubmitPage : Page :=
  pageOf [ (inputsOf "form", [inputA]); ("#a", [inputA]);
           ("#upload", [inputUpload]);
           ("button[type='submit']", [hiddenSubmit]) ].

(** A freshly constructed [FormFiller]: its generator is object 0. *)
Definition initial : FormFillerState :=
  {| faker := {| instance := 0; definition := en |}; created := 1; draws := 0;
     trace := [] |}.

(** A descriptor as a caller writes it: target and category only. *)
Definition field (t : Target) (ft : FieldType) : FieldConfig :=
  {| selector := t; type := ft; valueGenerator := None; min := None;
     max := None; options := None; clickAfterFill := false;
     pressEnterAfterFill := false; blurAfterFill := false; filePath := None;
     locale := None |}.

Definition withLocale (l : string) (f : FieldConfig) : FieldConfig :=
  {| selector := selector f; type := type f; valueGenerator := valueGenerator f;
     min := min f; max := max f; options := options f;
     clickAfterFill := clickAfterFill f;
     pressEnterAfterFill := pressEnterAfterFill f;
     blurAfterFill := blurAfterFill f; filePath := filePath f;
     locale := Some l |}.

Definition withBounds (lo hi : option Z) (f : FieldConfig) : FieldConfig :=
  {| selector := selector f; type := type f; valueGenerator := valueGenerator f;
     min := lo; max := hi; options := options f;
     clickAfterFill := clickAfterFill f;
     pressEnterAfterFill := pressEnterAfterFill f;
     blurAfterFill := blurAfterFill f; filePath := filePath f;
     locale := locale f |}.

Definition autoFill (ex : list string) (n : Z) (submitting : bool)
    (l : option string) : AutoFillOptions :=
  {| formSelector := None; excludeSelectors := Some ex; customFields := None;
     submitAfterFill := Some submitting; submitSelector := None;
     a_locale := l; maxElements := Some n |}.


Definition inputAb : Element :=
  plainElement "INPUT" [("id", "ab"); ("type", "text")] (Some "text").

(** A dropdown with a placeholder option, a disabled option and two usable
    options. *)
Definition selectColor : Element :=
  {| tagName := "SELECT"; attributes := [("id", "color")]; inputType := None;
     selectOptions :=
       Some [ {| optionValue := EmptyString; optionDisabled := false |};
              {| optionValue := "grey"; optionDisabled := true |};
              {| optionValue := "red"; optionDisabled := false |};
              {| optionValue := "blue"; optionDisabled := false |} ];
     visible := true |}.

(** Two inputs whose ids share a prefix, and the colour dropdown. *)
Definition prefixPage : Page :=
  pageOf [ (inputsOf "form", [inputA; inputAb]);
           ("form select", [selectColor]);
           ("#a", [inputA]); ("#ab", [inputAb]); ("#color", [selectColor]) ].

(** One input and two dropdowns. *)
Definition lopsidedPage : Page :=
  pageOf [ (inputsOf "form", [inputA]);
           ("form select", [selectC; selectD]);
           ("#a", [inputA]); ("#c", [selectC]); ("#d", [selectD]) ].

(** An input whose [type] attribute names a member every object inherits,
    and whose name suggests a phone number. *)
Definition inputConstructor : Element :=
  plainElement "INPUT" [("type", "constructor"); ("name", "phone")] (Some "text").

(** A form with that input alone. *)
Definition constructorPage : Page :=
  pageOf [ (inputsOf "form", [inputConstructor]) ].

(** An editable element whose tag is named [__proto__]. *)
Definition protoElement : Element :=
  plainElement "__PROTO__" [("contenteditable", "true")] None.

(** A page on which the selector [__proto__] matches that element. *)
Definition protoPage : Page :=
  pageOf [ ("__proto__", [protoElement]); ("#a", [inputA]) ].

Definition withOptions (os : list string) (f : FieldConfig) : FieldConfig :=
  {| selector := selector f; type := type f; valueGenerator := valueGenerator f;
     min := min f; max := max f; options := Some os;
     clickAfterFill := clickAfterFill f;
     pressEnterAfterFill := pressEnterAfterFill f;
     blurAfterFill := blurAfterFill f; filePath := filePath f;
     locale := locale f |}.

Definition withGenerator (g : unit -> Result Value) (f : FieldConfig)
  : FieldConfig :=
  {| selector := selector f; type := type f; valueGenerator := Some g;
     min := min f; max := max f; options := options f;
     clickAfterFill := clickAfterFill f;
     pressEnterAfterFill := pressEnterAfterFill f;
     blurAfterFill := blurAfterFill f; filePath := filePath f;
     locale := locale f |}.

Definition withPostActions (f : FieldConfig) : FieldConfig :=
  {| selector := selector f; type := type f; valueGenerator := valueGenerator f;
     min := min f; max := max f; options := options f;
     clickAfterFill := true; pressEnterAfterFill := true;
     blurAfterFill := true; filePath := filePath f; locale := locale f |}.

(** ** Running the monad *)

Section Properties.

Context {W : World}.

Lemma bind_run {A B} (m : M A) (f : A -> M B) s :
  (m ≫= f) s =
  match m s with
  | (Ok a, s') => f a s'
  | (Throw e, s') => (Throw e, s')
  end.
Proof. reflexivity. Qed.

(** Unfold one layer of monadic plumbing. *)
Ltac run :=
  repeat first
    [ rewrite bind_run
    | progress cbn [getFaker newFaker setFaker liftResult nextDraw emit throw
                    mret M_ret fst snd] ].

Lemma logged_nil s : logged [] s = s.
Proof. by destruct s. Qed.

Lemma logged_logged evs evs' s :
  logged evs (logged evs' s) = logged (evs ++ evs') s.
Proof. unfold logged; simpl. by rewrite app_assoc. Qed.

Lemma actionsOf_app evs evs' :
  actionsOf (evs ++ evs') = (actionsOf evs ++ actionsOf evs')%list.
Proof. unfold actionsOf. apply omap_app. Qed.

Lemma forEach_app {A B} (body : B -> A -> M B) xs ys acc s :
  forEach body (xs ++ ys) acc s =
  match forEach body xs acc s with
  | (Ok acc', s') => forEach body ys acc' s'
  | (Throw e, s') => (Throw e, s')
  end.
Proof.
  revert acc s. induction xs as [|x xs IH]; intros acc s; simpl; [done|].
  rewrite !bind_run. destruct (body acc x s) as [[acc'|e] s']; [apply IH|done].
Qed.

Lemma element_run l e s : resolve l = [e] -> element l s = (Ok e, s).
Proof. intros H. unfold element. by rewrite H. Qed.

Lemma getAttribute_run l e name s :
  resolve l = [e] ->
  getAttribute l name s = (Ok (attributeOf e name), logged [EvGetAttribute l name] s).
Proof.
  intros H. unfold getAttribute. rewrite bind_run. simpl.
  rewrite bind_run, (element_run l e) by done. done.
Qed.

Lemma getTagName_run l e s :
  resolve l = [e] ->
  getTagName l s = (Ok (toLowerCase (tagName e)), logged [EvTagName l] s).
Proof.
  intros H. unfold getTagName. rewrite bind_run. simpl.
  rewrite bind_run, (element_run l e) by done. done.
Qed.

Lemma getInputType_run l e s :
  resolve l = [e] ->
  getInputType l s = (Ok (toLowerCase <$> inputType e), logged [EvInputType l] s).
Proof.
  intros H. unfold getInputType. rewrite bind_run. simpl.
  rewrite bind_run, (element_run l e) by done. done.
Qed.

(** On a resolved element the classifier computes [classify]. *)
Lemma determineFieldType_run l e declared name id placeholder ariaLabel label s :
  resolve l = [e] ->
  determineFieldType l declared name id placeholder ariaLabel label s =
  (Ok (classify (toLowerCase (tagName e)) declared name id placeholder ariaLabel label),
   logged [EvTagName l] s).
Proof.
  intros H. unfold determineFieldType. rewrite bind_run, (getTagName_run l e) by done.
  unfold classify, declaredCategory, textSignal. cbn [firstDecisive].
  destruct (String.eqb _ "select"); [done|].
  destruct (String.eqb _ "textarea"); [done|].
  destruct (if truthy declared then _ else _); [done|].
  repeat (destruct (scanMappings _ _); [done|]). done.
Qed.

(** ** The scanner reads the page and never fails *)

(** The descriptor pushed for candidate [e] at index [i], if any. *)
Lemma scanElement_run formSelector excludeSelectors elementSelector elements
    formFields i e s :
  resolve elements !! i = Some e ->
  exists evs,
    scanElement formSelector excludeSelectors elementSelector elements formFields i s =
    (Ok (formFields ++
         ((fun d => detected d.1 d.2) <$>
            filter (fun d => excluded excludeSelectors d.1 = false)
              [describe formSelector elementSelector i e]))%list,
     logged evs s)
    /\ actionsOf evs = [].
Proof.
  intros Hi.
  assert (Hr : resolve (Nth elements i) = [e]) by (simpl; by rewrite Hi).
  unfold scanElement.
  repeat (rewrite bind_run, (getAttribute_run _ e) by done).
  rewrite filter_cons, filter_nil. unfold describe at 1. cbn [fst].
  destruct (excluded excludeSelectors _) eqn:Hex.
  - rewrite decide_False by done. simpl. rewrite app_nil_r.
    rewrite !logged_logged. eexists. split; [reflexivity|done].
  - rewrite decide_True by done.
    rewrite bind_run, (determineFieldType_run _ e) by done.
    rewrite !logged_logged. eexists. split; [reflexivity|done].
Qed.

Lemma scanPass_run formSelector excludeSelectors elementSelector elements n :
  (n <= length (resolve elements))%nat ->
  forall formFields s,
  exists evs,
    forEach (scanElement formSelector excludeSelectors elementSelector elements)
      (seq 0 n) formFields s =
    (Ok (formFields ++
         ((fun d => detected d.1 d.2) <$>
            filter (fun d => excluded excludeSelectors d.1 = false)
              (imap (describe formSelector elementSelector)
                 (take n (resolve elements)))))%list,
     logged evs s)
    /\ actionsOf evs = [].
Proof.
  induction n as [|n IH]; intros Hn formFields s.
  - exists []. rewrite take_0. simpl. by rewrite app_nil_r, logged_nil.
  - destruct (lookup_lt_is_Some_2 (resolve elements) n) as [e He]; [lia|].
    destruct (IH ltac:(lia) formFields s) as (evs & Hrun & Hquiet).
    rewrite seq_S, forEach_app, Hrun. simpl.
    rewrite bind_run.
    edestruct (scanElement_run formSelector excludeSelectors elementSelector
                 elements) as (evs' & Hrun' & Hquiet'); [exact He|].
    rewrite Hrun'. simpl. rewrite logged_logged.
    exists (evs' ++ evs)%list. split.
    + f_equal. f_equal. rewrite <- app_assoc. f_equal.
      rewrite (take_S_r _ _ e) by done.
      rewrite imap_app, filter_app, fmap_app. f_equal.
      simpl. rewrite length_take, Nat.min_l by lia.
      by rewrite Nat.add_0_r.
    + by rewrite actionsOf_app, Hquiet, Hquiet'.
Qed.

Lemma take_min_length {A} (l : list A) (m : Z) :
  take (Z.to_nat (Z.min (Z.of_nat (length l)) m)) l = take (Z.to_nat m) l.
Proof.
  destruct (Z.le_gt_cases m (Z.of_nat (length l))).
  - by rewrite Z.min_r.
  - rewrite Z.min_l, Nat2Z.id by lia. by rewrite !take_ge by lia.
Qed.

Lemma scanKinds_run formSelector excludeSelectors maxElements kinds :
  forall formFields s,
  exists evs,
    scanKinds formSelector excludeSelectors maxElements kinds formFields s =
    (Ok (collected formSelector excludeSelectors maxElements kinds formFields),
     logged evs s)
    /\ actionsOf evs = [].
Proof.
  induction kinds as [|elementSelector kinds IH]; intros formFields s.
  - exists []. simpl. by rewrite logged_nil.
  - cbn [scanKinds collected]. rewrite bind_run. unfold locator at 1.
    rewrite bind_run. simpl. rewrite bind_run. unfold count at 1.
    rewrite bind_run. simpl. rewrite bind_run.
    set (elements := Loc (formSelector +:+ " " +:+ elementSelector)).
    edestruct (scanPass_run formSelector excludeSelectors elementSelector elements
                 (Z.to_nat (Z.min (Z.of_nat (length (resolve elements))) maxElements)))
      as (evs & Hrun & Hquiet); [lia|].
    rewrite Hrun. rewrite take_min_length.
    unfold contribution, examined, candidates. subst elements. simpl resolve.
    rewrite !logged_logged.
    destruct (_ <=? _)%Z.
    + eexists. split; [reflexivity|].
      by rewrite !actionsOf_app, Hquiet.
    + edestruct IH as (evs' & Hrun' & Hquiet'). rewrite Hrun'.
      rewrite logged_logged. eexists. split; [reflexivity|].
      by rewrite !actionsOf_app, Hquiet, Hquiet'.
Qed.

(** The scanner always returns, with the descriptors [collected] names,
    and it only reads the page. *)
Lemma detectFormFields_run formSelector excludeSelectors maxElements s :
  exists evs,
    detectFormFields formSelector excludeSelectors maxElements s =
    (Ok (collected formSelector excludeSelectors maxElements fieldSelectors []),
     logged evs s)
    /\ actionsOf evs = [].
Proof. apply scanKinds_run. Qed.

Lemma contribution_notExcluded formSelector excludeSelectors maxElements
    elementSelector :
  Forall (notExcluded excludeSelectors)
    (contribution formSelector excludeSelectors maxElements elementSelector).
Proof.
  unfold contribution. apply Forall_fmap, Forall_forall.
  intros d Hd. apply list_elem_of_filter in Hd as [Hd _].
  by exists d.1.
Qed.

Lemma collected_notExcluded formSelector excludeSelectors maxElements kinds :
  forall formFields,
  Forall (notExcluded excludeSelectors) formFields ->
  Forall (notExcluded excludeSelectors)
    (collected formSelector excludeSelectors maxElements kinds formFields).
Proof.
  induction kinds as [|k kinds IH]; intros formFields H; simpl; [done|].
  assert (Forall (notExcluded excludeSelectors)
            (formFields ++ contribution formSelector excludeSelectors maxElements k))
    by (apply Forall_app; split; [done|apply contribution_notExcluded]).
  destruct (_ <=? _)%Z; [done|by apply IH].
Qed.

(** What the cap does bound: the descriptors of one kind. *)
Lemma contribution_at_most_maxElements formSelector excludeSelectors maxElements
    elementSelector :
  (length (contribution formSelector excludeSelectors maxElements elementSelector)
   <= Z.to_nat maxElements)%nat.
Proof.
  unfold contribution, examined. rewrite length_fmap.
  etransitivity; [apply length_filter|].
  rewrite length_imap, length_take. lia.
Qed.

(** ** Substrings and exclusion *)

Lemma includes_empty s : includes s EmptyString = true.
Proof. by destruct s. Qed.

Lemma prefix_append p r : String.prefix p (p +:+ r) = true.
Proof.
  induction p as [|c p IH]; simpl; [by destruct r|].
  destruct (ascii_dec c c); [exact IH|done].
Qed.

Lemma includes_of_prefix s p : String.prefix p s = true -> includes s p = true.
Proof. destruct s; simpl; by intros ->. Qed.

Lemma includes_prefix p r : includes (p +:+ r) p = true.
Proof. apply includes_of_prefix, prefix_append. Qed.

Lemma excluded_by ex excludeSelector sel :
  In excludeSelector ex -> includes sel excludeSelector = true ->
  excluded ex sel = true.
Proof. intros Hin Hinc. apply existsb_exists. eauto. Qed.

Lemma prefix_inv p s : String.prefix p s = true -> exists rest, s = p +:+ rest.
Proof.
  revert s. induction p as [|c p IH]; intros s H; [by exists s|].
  destruct s as [|c' s]; [done|].
  simpl in H. destruct (ascii_dec c c') as [<-|]; [|done].
  destruct (IH _ H) as [rest ->]. by exists rest.
Qed.

(** [includes] decides [occursIn]. *)
Lemma includes_spec s pattern : includes s pattern = true <-> occursIn pattern s.
Proof.
  split.
  - induction s as [|c s IH]; cbn [includes]; intros H.
    + rewrite orb_false_r in H. apply prefix_inv in H as [rest ->].
      by exists EmptyString, rest.
    + apply orb_true_iff in H as [H|H].
      * apply prefix_inv in H as [rest ->]. by exists EmptyString, rest.
      * destruct (IH H) as (before & after & ->).
        by exists (String c before), after.
  - intros (before & after & ->).
    induction before as [|c before IH]; [exact (includes_prefix pattern after)|].
    change (String c before +:+ pattern +:+ after)
      with (String c (before +:+ pattern +:+ after)).
    cbn [includes]. rewrite IH. apply orb_true_r.
Qed.

(** [excluded] decides the complement of [retained]. *)
Lemma excluded_spec excludeSelectors sel :
  excluded excludeSelectors sel = false <-> retained excludeSelectors sel.
Proof.
  unfold excluded, retained. split.
  - intros H ex Hex Hocc. apply includes_spec in Hocc.
    apply list_elem_of_In in Hex.
    assert (existsb (fun excludeSelector => includes sel excludeSelector)
              excludeSelectors = true) by (apply existsb_exists; eauto).
    congruence.
  - intros H. apply not_true_is_false. intros (ex & Hex & Hinc)%existsb_exists.
    apply (H ex); [by apply list_elem_of_In|by apply includes_spec].
Qed.

Lemma Kept_filter {A} (P Q : A -> Prop) `{!forall x, Decision (Q x)} l :
  (forall x, Q x <-> P x) -> Kept P l (filter Q l).
Proof.
  intros HPQ. induction l as [|x l IH]; [constructor|].
  rewrite filter_cons. destruct (decide (Q x)) as [Hx|Hx].
  - apply Kept_keep; [by apply HPQ|done].
  - apply Kept_skip; [by rewrite <- HPQ|done].
Qed.

(** The kept sub-list is determined by the list and the predicate. *)
Lemma Kept_unique {A} (P : A -> Prop) l kept kept' :
  Kept P l kept -> Kept P l kept' -> kept = kept'.
Proof.
  intros H. revert kept'.
  induction H as [|x l kept Hx _ IH|x l kept Hx _ IH]; intros kept' H';
    inversion H'; subst; try done.
  - f_equal. by apply IH.
  - by apply IH.
Qed.

Lemma contribution_Kept formSelector excludeSelectors maxElements elementSelector :
  exists kept,
    contribution formSelector excludeSelectors maxElements elementSelector =
    (fun d => detected d.1 d.2) <$> kept
    /\ Kept (fun d => retained excludeSelectors d.1)
         (imap (describe formSelector elementSelector)
            (take (Z.to_nat maxElements)
               (querySelectorAll page (formSelector +:+ " " +:+ elementSelector))))
         kept.
Proof.
  eexists. split; [reflexivity|].
  apply Kept_filter. intros d. apply excluded_spec.
Qed.

Lemma contribution_of_no_candidate formSelector excludeSelectors maxElements
    elementSelector :
  querySelectorAll page (formSelector +:+ " " +:+ elementSelector) = [] ->
  contribution formSelector excludeSelectors maxElements elementSelector = [].
Proof.
  intros H. unfold contribution, examined, candidates. rewrite H.
  by rewrite take_nil.
Qed.

(** Scanning further kinds only appends to what has been collected. *)
Lemma collected_extends formSelector excludeSelectors maxElements kinds :
  forall formFields,
  exists others,
    collected formSelector excludeSelectors maxElements kinds formFields =
    (formFields ++ others)%list
    /\ (Forall (fun k => querySelectorAll page (formSelector +:+ " " +:+ k) = [])
          kinds -> others = []).
Proof.
  induction kinds as [|k kinds IH]; intros formFields; cbn [collected].
  - exists []. by rewrite app_nil_r.
  - destruct (IH (formFields ++
                  contribution formSelector excludeSelectors maxElements k)%list)
      as (others & Hrun & Hnone).
    destruct (_ <=? _)%Z.
    + eexists. split; [reflexivity|].
      intros Hall. apply Forall_cons_1 in Hall as [Hk _].
      by apply contribution_of_no_candidate.
    + exists (contribution formSelector excludeSelectors maxElements k ++ others)%list.
      split; [by rewrite Hrun, app_assoc|].
      intros Hall. apply Forall_cons_1 in Hall as [Hk Hall].
      by rewrite (Hnone Hall), contribution_of_no_candidate.
Qed.

(** ** Claims about the scanner *)

(** C3, amended.  An element whose synthesized selector contains an exclude
    substring yields no descriptor, but it still uses up one of the
    positions the budget allows the scan to examine.  The scanner returns,
    and the descriptors of the eligible inputs (the kind scanned first)
    come first in its result: they are, in order, those of the inputs
    among the first [maxElements] whose selector contains no exclude
    substring, so an excluded input among them is not made up for by a
    later one.  These are all the descriptors when they already number
    [maxElements], or when the form has no dropdown and no text area.  No
    descriptor returned, of any kind, has a selector that contains an
    exclude substring. *)
Theorem excluded_candidates_occupy_examined_positions
    formSelector excludeSelectors maxElements s :
  let inputs := querySelectorAll page (formSelector +:+ " " +:+ inputKind) in
  let leading :=
    imap (describe formSelector inputKind) (take (Z.to_nat maxElements) inputs) in
  exists kept others s',
    detectFormFields formSelector excludeSelectors maxElements s =
    (Ok (((fun d => detected d.1 d.2) <$> kept) ++ others)%list, s')
    /\ Kept (fun d => retained excludeSelectors d.1) leading kept
    /\ ((maxElements <= Z.of_nat (length kept))%Z -> others = [])
    /\ (querySelectorAll page (formSelector +:+ " select") = [] ->
        querySelectorAll page (formSelector +:+ " textarea") = [] ->
        others = [])
    /\ Forall (fun f => exists sel,
                 selector f = BySelector sel /\ retained excludeSelectors sel)
         (((fun d => detected d.1 d.2) <$> kept) ++ others)%list.
Proof.
  intros inputs leading.
  destruct (detectFormFields_run formSelector excludeSelectors maxElements s)
    as (evs & Hrun & _).
  pose proof (collected_notExcluded formSelector excludeSelectors maxElements
                fieldSelectors [] (Forall_nil_2 _)) as Hall.
  destruct (contribution_Kept formSelector excludeSelectors maxElements inputKind)
    as (kept & Hkept & HKept).
  assert (Hshape : exists others,
            collected formSelector excludeSelectors maxElements fieldSelectors [] =
            (((fun d => detected d.1 d.2) <$> kept) ++ others)%list
            /\ ((maxElements <= Z.of_nat (length kept))%Z -> others = [])
            /\ (querySelectorAll page (formSelector +:+ " select") = [] ->
                querySelectorAll page (formSelector +:+ " textarea") = [] ->
                others = [])).
  { change fieldSelectors with [inputKind; "select"; "textarea"].
    cbn [collected app]. rewrite Hkept, length_fmap.
    destruct (Z.leb_spec maxElements (Z.of_nat (length kept))) as [Hfull|Hroom].
    - exists []. by rewrite app_nil_r.
    - destruct (collected_extends formSelector excludeSelectors maxElements
                  ["select"; "textarea"] ((fun d => detected d.1 d.2) <$> kept))
        as (others & Hothers & Hnone).
      exists others. split; [done|]. split; [lia|].
      intros Hselect Htextarea. apply Hnone.
      by repeat apply Forall_cons_2. }
  destruct Hshape as (others & Hshape & Hfull & Hnone).
  exists kept, others, (logged evs s).
  rewrite Hrun, Hshape. repeat split; try done.
  rewrite Hshape in Hall. eapply Forall_impl; [exact Hall|].
  intros f (sel & Hsel & Hex). exists sel. split; [done|].
  by apply excluded_spec.
Qed.

(** ** Methods that leave the generator alone *)

Create HintDb steady.

Lemma steady_ret {A} (a : A) : steady (mret a).
Proof. done. Qed.

Lemma steady_throw {A} e : steady (@throw A e).
Proof. done. Qed.

Lemma steady_liftResult {A} (r : Result A) : steady (liftResult r).
Proof. done. Qed.

Lemma steady_emit ev : steady (emit ev).
Proof. done. Qed.

Lemma steady_getFaker : steady getFaker.
Proof. done. Qed.

Lemma steady_nextDraw : steady nextDraw.
Proof. done. Qed.

Lemma steady_bind {A B} (m : M A) (f : A -> M B) :
  steady m -> (forall a, steady (f a)) -> steady (m ≫= f).
Proof.
  intros Hm Hf s. rewrite bind_run. specialize (Hm s).
  destruct (m s) as [[a|e] s']; simpl in *; [|done].
  by rewrite Hf.
Qed.

Hint Resolve steady_ret steady_throw steady_liftResult steady_emit
  steady_getFaker steady_nextDraw : steady.

Ltac steady_step :=
  repeat first
    [ solve [eauto with steady]
    | apply steady_bind; [|intros ?] ].

Lemma steady_element l : steady (element l).
Proof. unfold element. destruct (resolve l) as [|? [|? ?]]; eauto with steady. Qed.

Hint Resolve steady_element : steady.

Lemma steady_locator sel : steady (locator sel).
Proof. unfold locator. steady_step. Qed.

Hint Resolve steady_locator : steady.

Lemma steady_toLocator t : steady (toLocator t).
Proof. destruct t; simpl; eauto with steady. Qed.

Lemma steady_perform l a : steady (perform l a).
Proof. unfold perform. steady_step. destruct (accepts _ _ _); eauto with steady. Qed.

Lemma steady_getTagName l : steady (getTagName l).
Proof. unfold getTagName. steady_step. Qed.

Lemma steady_getInputType l : steady (getInputType l).
Proof. unfold getInputType. steady_step. Qed.

Lemma steady_random : steady random.
Proof. unfold random. steady_step. Qed.

Lemma steady_callFaker c : steady (callFaker c).
Proof. unfold callFaker. steady_step. Qed.

Hint Resolve steady_toLocator steady_perform steady_getTagName
  steady_getInputType steady_random steady_callFaker : steady.

Lemma steady_when flag m : steady m -> steady (when flag m).
Proof. destruct flag; simpl; eauto with steady. Qed.

Hint Resolve steady_when : steady.

Lemma steady_getRandomSelectOption t : steady (getRandomSelectOption t).
Proof.
  unfold getRandomSelectOption. steady_step.
  destruct (_ =? _)%nat; steady_step.
Qed.

Hint Resolve steady_getRandomSelectOption : steady.

Lemma steady_generateValue fieldConfig : steady (generateValue fieldConfig).
Proof.
  unfold generateValue.
  destruct (valueGenerator fieldConfig); [eauto with steady|].
  destruct (type fieldConfig); try solve [steady_step].
  destruct (options fieldConfig) as [[|? ?]|]; steady_step.
Qed.

Lemma steady_applyValueToField l fieldConfig value :
  steady (applyValueToField l fieldConfig value).
Proof.
  unfold applyValueToField. steady_step.
  destruct (String.eqb _ "select").
  { destruct value; eauto with steady. }
  destruct (_ && _).
  { destruct value as [?|[|]|?|?]; eauto with steady. }
  destruct (if _ && _ then _ else _); eauto with steady.
Qed.

Hint Resolve steady_generateValue steady_applyValueToField : steady.

(** ** Claims about the locale override *)

Lemma getLocaleDefinition_unsupported l :
  l <> "en" -> getLocaleDefinition l = Throw (UnsupportedLocale l).
Proof.
  intros H. unfold getLocaleDefinition.
  by apply String.eqb_neq in H as ->.
Qed.

(** What holds of the code on the path that returns: a field filled under
    a locale override leaves the generator that was installed before. *)
Lemma fillField_restores_generator_on_return fieldConfig s value s' :
  fillField fieldConfig s = (Ok value, s') -> faker s' = faker s.
Proof.
  unfold fillField. run.
  destruct (requested (locale fieldConfig)) as [l|].
  - run. destruct (getLocaleDefinition l) as [d|e]; [|done]. run.
    destruct (toLocator _ _) as [[loc|e] s1]; [|done]. run.
    destruct (generateValue _ _) as [[v|e] s2]; [|done]. run.
    destruct (applyValueToField _ _ _ _) as [[[]|e] s3]; [|done]. run.
    by intros [= _ <-].
  - run. intros H.
    pose proof (steady_toLocator (selector fieldConfig) s) as H1.
    destruct (toLocator _ _) as [[loc|e] s1]; [|done]. revert H. run. intros H.
    pose proof (steady_generateValue fieldConfig s1) as H2.
    destruct (generateValue _ _) as [[v|e] s2]; [|done]. revert H. run. intros H.
    pose proof (steady_applyValueToField loc fieldConfig v s2) as H3.
    destruct (applyValueToField _ _ _ _) as [[[]|e] s3]; [|done]. revert H. run.
    intros [= _ <-]. simpl in *. congruence.
Qed.

(** What holds on the path that throws once the temporary generator is
    installed: nothing puts the original back. *)
Lemma fillField_throw_keeps_temporary_generator fieldConfig s e s' :
  requested (locale fieldConfig) = Some "en" ->
  fillField fieldConfig s = (Throw e, s') ->
  faker s' = {| instance := created s; definition := en |}.
Proof.
  intros Hreq. unfold fillField. run. rewrite Hreq. run.
  change (getLocaleDefinition "en") with (Ok en). run. cbn [created draws trace].
  set (s0 := {| faker := {| instance := created s; definition := en |};
                created := S (created s); draws := draws s; trace := trace s |}).
  intros H.
  pose proof (steady_toLocator (selector fieldConfig) s0) as H1.
  destruct (toLocator _ _) as [[loc|e1] s1].
  2:{ injection H as _ <-. exact H1. }
  revert H. run. intros H.
  pose proof (steady_generateValue fieldConfig s1) as H2.
  destruct (generateValue _ _) as [[v|e2] s2].
  2:{ injection H as _ <-. simpl in *. congruence. }
  revert H. run. intros H.
  pose proof (steady_applyValueToField loc fieldConfig v s2) as H3.
  destruct (applyValueToField _ _ _ _) as [[[]|e3] s3].
  { revert H. run. done. }
  injection H as _ <-. simpl in *. congruence.
Qed.

(** C7.  A call to [fillField] or [autoFillForm] that requests a locale
    outside the supported set throws [Unsupported locale] before any
    request reaches the page, and leaves the object (generator included)
    exactly as it was: the state after the call is the state before. *)
Theorem unsupported_locale_aborts_before_any_interaction l s :
  l <> "en" ->
  (forall fieldConfig,
     requested (locale fieldConfig) = Some l ->
     fillField fieldConfig s = (Throw (UnsupportedLocale l), s))
  /\ (forall options,
        requested (a_locale options) = Some l ->
        autoFillForm options s = (Throw (UnsupportedLocale l), s)).
Proof.
  intros Hl. split.
  - intros fieldConfig Hreq. unfold fillField. run. rewrite Hreq. run.
    by rewrite getLocaleDefinition_unsupported.
  - intros options Hreq. unfold autoFillForm. run. rewrite Hreq. run.
    by rewrite getLocaleDefinition_unsupported.
Qed.

(** ** Claims about the value generator *)

(** C5.  For a NUMBER field without [valueGenerator], with Faker's integer
    generator meeting its contract: every value generated is an integer
    within [[min ?? 1, max ?? 100]]; a value is generated whenever that
    interval is not empty; and with [min = max = 5] the value is 5. *)
Theorem number_value_within_bounds fieldConfig s :
  type fieldConfig = NUMBER ->
  valueGenerator fieldConfig = None ->
  fakerIntContract W ->
  let lo := default 1%Z (min fieldConfig) in
  let hi := default 100%Z (max fieldConfig) in
  (forall value s',
     generateValue fieldConfig s = (Ok value, s') ->
     exists n, value = VNumber n /\ (lo <= n <= hi)%Z)
  /\ ((lo <= hi)%Z ->
      exists n s',
        generateValue fieldConfig s = (Ok (VNumber n), s') /\ (lo <= n <= hi)%Z)
  /\ (min fieldConfig = Some 5%Z -> max fieldConfig = Some 5%Z ->
      exists s', generateValue fieldConfig s = (Ok (VNumber 5), s')).
Proof.
  intros Htype Hgen [Hrange Htotal] lo hi.
  assert (Hrun : generateValue fieldConfig s =
            match fakerInt (faker s) lo hi (draws s) with
            | Ok n => (Ok (VNumber n), (nextDraw s).2)
            | Throw e => (Throw e, (nextDraw s).2)
            end).
  { unfold generateValue. rewrite Hgen, Htype. fold lo hi. run.
    by destruct (fakerInt _ _ _ _). }
  split; [|split].
  - intros value s'. rewrite Hrun.
    destruct (fakerInt _ _ _ _) as [n|e] eqn:Hn; [|done].
    intros [= <- _]. exists n. split; [done|]. by eapply Hrange.
  - intros Hle. destruct (Htotal (faker s) lo hi (draws s) Hle) as [n Hn].
    exists n, (nextDraw s).2. rewrite Hrun, Hn. split; [done|]. by eapply Hrange.
  - intros Hmin Hmax.
    assert (lo = 5%Z) as Hlo by (subst lo; by rewrite Hmin).
    assert (hi = 5%Z) as Hhi by (subst hi; by rewrite Hmax).
    destruct (Htotal (faker s) lo hi (draws s)) as [n Hn]; [lia|].
    pose proof (Hrange _ _ _ _ _ Hn).
    exists (nextDraw s).2. rewrite Hrun, Hn.
    repeat f_equal. lia.
Qed.

Lemma liveOptions_nil e : noLiveOption e -> liveOptions e = [].
Proof.
  unfold noLiveOption, liveOptions. intros H.
  destruct (selectOptions e) as [os|]; [|done].
  specialize (H os eq_refl). induction H as [|o os Ho _ IH]; [done|].
  rewrite filter_cons, decide_False; [done|].
  destruct Ho as [->| ->]; [done|]. rewrite andb_false_r. done.
Qed.

(** C6.  For a SELECT field without [valueGenerator], whose [options] list
    is absent or empty and whose live element exposes no enabled option
    with a non-empty value, generation returns the empty string and does
    not throw. *)
Theorem select_without_options_yields_empty_string fieldConfig e s :
  type fieldConfig = SELECT ->
  valueGenerator fieldConfig = None ->
  options fieldConfig = None \/ options fieldConfig = Some [] ->
  resolve (locatorOf (selector fieldConfig)) = [e] ->
  noLiveOption e ->
  (exists s',
     getRandomSelectOption (selector fieldConfig) s = (Ok EmptyString, s'))
  /\ (exists s',
        generateValue fieldConfig s = (Ok (VString EmptyString), s')).
Proof.
  intros Htype Hgen Hopts Hres Hlive.
  assert (Hrun : exists s',
            getRandomSelectOption (selector fieldConfig) s = (Ok EmptyString, s')).
  { unfold getRandomSelectOption.
    destruct (selector fieldConfig) as [sel|l]; simpl in Hres.
    - cbn [toLocator]. unfold locator. run.
      rewrite (element_run (Loc sel) e) by done.
      rewrite liveOptions_nil by done. simpl. eauto.
    - cbn [toLocator]. run. rewrite (element_run l e) by done.
      rewrite liveOptions_nil by done. simpl. eauto. }
  split; [done|].
  destruct Hrun as [s' Hrun].
  exists s'. unfold generateValue. rewrite Hgen, Htype.
  destruct Hopts as [-> | ->]; by rewrite bind_run, Hrun.
Qed.

(** ** Claims about the filler *)

Lemma perform_run l e a s :
  resolve l = [e] ->
  perform l a s =
  (if accepts page e a then Ok tt else Throw (NotActionable l a),
   logged [EvAction l a] s).
Proof.
  intros H. unfold perform. run. rewrite (element_run l e) by done.
  by destruct (accepts page e a).
Qed.

(** The requested post-actions add click, Enter and blur events only. *)
Lemma postActions_run l e fieldConfig s :
  resolve l = [e] ->
  exists r post,
    (when (clickAfterFill fieldConfig) (perform l Click) ≫= fun _ =>
     when (pressEnterAfterFill fieldConfig) (perform l (Press "Enter")) ≫= fun _ =>
     when (blurAfterFill fieldConfig) (perform l Blur)) s =
    (r, logged post s)
    /\ Forall (postAction l) post.
Proof.
  intros H. unfold when.
  destruct (clickAfterFill fieldConfig), (pressEnterAfterFill fieldConfig),
    (blurAfterFill fieldConfig);
    run; rewrite ?(perform_run l e) by done;
    repeat (destruct (accepts page e _); run; rewrite ?(perform_run l e) by done);
    rewrite ?logged_logged; simpl app;
    (eexists _, _; split;
     [first [reflexivity | by rewrite <- (logged_nil s) at 1]
     |repeat (apply Forall_cons_2; [unfold postAction; auto|]);
      apply Forall_nil_2]).
Qed.

(** C10.  On an [input] element of type [file], with no [filePath] in the
    configuration, [applyValueToField] sends no file to the input: it takes
    the generic text branch and asks the page to fill the element with the
    string form of the value; the only later requests are the post-actions
    (click, Enter, blur). *)
Theorem file_input_without_path_is_filled_as_text l e fieldConfig value s :
  resolve l = [e] ->
  toLowerCase (tagName e) = "input" ->
  toLowerCase <$> inputType e = Some "file" ->
  requested (filePath fieldConfig) = None ->
  exists r post,
    applyValueToField l fieldConfig value s =
    (r, logged (post ++ [EvAction l (Fill (String_ value)); EvInputType l;
                         EvTagName l]) s)
    /\ Forall (postAction l) post.
Proof.
  intros Hres Htag Htype Hpath. unfold applyValueToField.
  rewrite bind_run, (getTagName_run l e) by done.
  rewrite bind_run, (getInputType_run l e) by done.
  rewrite Htag, Htype, Hpath. rewrite bind_run.
  change (String.eqb "input" "select") with false.
  change (String.eqb "input" "input" &&
          (bool_decide (Some "file" = Some "checkbox")
           || bool_decide (Some "file" = Some "radio"))) with false.
  change (String.eqb "input" "input" && bool_decide (Some "file" = Some "file"))
    with true.
  cbv iota. rewrite (perform_run l e) by done. rewrite !logged_logged.
  simpl app.
  destruct (accepts page e (Fill (String_ value))).
  - destruct (postActions_run l e fieldConfig
                (logged [EvAction l (Fill (String_ value)); EvInputType l;
                         EvTagName l] s) Hres)
      as (r & post & Hrun & Hpost).
    exists r, post. rewrite Hrun, logged_logged. done.
  - exists (Throw (NotActionable l (Fill (String_ value)))), []. done.
Qed.

Lemma forEach_singleton {A B} (body : B -> A -> M B) x acc s :
  forEach body [x] acc s = body acc x s.
Proof. simpl. run. by destruct (body acc x s) as [[?|?] ?]. Qed.

Lemma fillForm_snoc fieldsConfig fieldConfig s :
  fillForm (fieldsConfig ++ [fieldConfig]) s =
  match fillForm fieldsConfig s with
  | (Ok fieldValues, s1) => fillNext fieldValues fieldConfig s1
  | (Throw e, s1) => (Throw e, s1)
  end.
Proof.
  unfold fillForm. rewrite forEach_app.
  destruct (forEach _ _ _ _) as [[?|?] ?]; [apply forEach_singleton|done].
Qed.

Lemma fillForm_nil s : fillForm [] s = (Ok ∅, s).
Proof. reflexivity. Qed.

Lemma assign_other key value (object : gmap string Value) :
  key <> "__proto__" -> assign key value object = <[key := value]> object.
Proof. intros H. unfold assign. by apply String.eqb_neq in H as ->. Qed.

Lemma assign_proto value (object : gmap string Value) :
  assign "__proto__" value object = object.
Proof. reflexivity. Qed.

Lemma positional_key_plain n : "field-" +:+ n <> "__proto__".
Proof. discriminate. Qed.

Lemma fillForm_snoc_run fieldsConfig fieldConfig s
    (fieldValues : gmap string Value) s1 value s2 :
  fillForm fieldsConfig s = (Ok fieldValues, s1) ->
  fillField fieldConfig s1 = (Ok value, s2) ->
  fillForm (fieldsConfig ++ [fieldConfig]) s =
  (Ok (assign (selectorKey fieldValues (selector fieldConfig)) value fieldValues),
   s2).
Proof.
  intros Hform Hfield.
  rewrite fillForm_snoc, Hform. unfold fillNext. by rewrite bind_run, Hfield.
Qed.

(** X22.  The keys of [fillForm], field by field.  The result starts empty; each
    field that is filled stores its value under the field's selector when
    the selector is a string, and under [field-<n>] when it is a locator,
    [n] being the number of entries the object holds at that point; the
    one exception is the string selector [__proto__], for which nothing is
    stored.  In particular a list whose item 0 has selector [#a] and whose
    item 1 carries a locator yields exactly the keys [#a] and [field-1],
    bound to the two values filled. *)
Theorem fillForm_keys :
  (forall s, fillForm [] s = (Ok ∅, s))
  /\ (forall fieldsConfig fieldConfig s (fieldValues : gmap string Value) s1 value s2,
        fillForm fieldsConfig s = (Ok fieldValues, s1) ->
        fillField fieldConfig s1 = (Ok value, s2) ->
        fillForm (fieldsConfig ++ [fieldConfig]) s =
        (Ok match selector fieldConfig with
            | BySelector sel =>
                if String.eqb sel "__proto__" then fieldValues
                else <[sel := value]> fieldValues
            | ByLocator _ =>
                <["field-" +:+ pretty (size fieldValues) := value]> fieldValues
            end,
         s2))
  /\ (forall item0 item1 handle s value0 s1 value1 s2,
        selector item0 = BySelector "#a" ->
        selector item1 = ByLocator handle ->
        fillField item0 s = (Ok value0, s1) ->
        fillField item1 s1 = (Ok value1, s2) ->
        exists fieldValues : gmap string Value,
          fillForm [item0; item1] s = (Ok fieldValues, s2)
          /\ fieldValues = <["field-1" := value1]> {["#a" := value0]}
          /\ dom fieldValues = {["#a"; "field-1"]}
          /\ fieldValues !! "#a" = Some value0
          /\ fieldValues !! "field-1" = Some value1).
Proof.
  split; [exact fillForm_nil|]. split.
  { intros fieldsConfig fieldConfig s fieldValues s1 value s2 Hform Hfield.
    rewrite (fillForm_snoc_run _ _ _ _ _ _ _ Hform Hfield).
    unfold selectorKey. destruct (selector fieldConfig) as [sel|l]; [done|].
    by rewrite assign_other by apply positional_key_plain. }
  intros item0 item1 handle s value0 s1 value1 s2 H0 H1 Hfill0 Hfill1.
  eexists. split; [|split; [reflexivity|]].
  - change [item0; item1] with (([] ++ [item0]) ++ [item1])%list.
    erewrite fillForm_snoc_run;
      [|erewrite fillForm_snoc_run; [reflexivity|apply fillForm_nil|exact Hfill0]
       |exact Hfill1].
    rewrite H0, H1. unfold selectorKey.
    rewrite (assign_other "#a") by discriminate.
    rewrite assign_other by apply positional_key_plain.
    rewrite insert_empty, map_size_singleton. reflexivity.
  - split; [|split].
    + rewrite dom_insert_L, dom_singleton_L. set_solver.
    + rewrite lookup_insert_ne by done. apply lookup_singleton_eq.
    + apply lookup_insert_eq.
Qed.

(** ** Claims about the orchestrator *)

(** A request is recorded whether or not the page honours it. *)
Lemma perform_logged l a s :
  exists r, perform l a s = (r, logged [EvAction l a] s).
Proof.
  unfold perform. run. unfold element.
  destruct (resolve l) as [|e [|e' rest]]; run; eauto.
  destruct (accepts page e a); eauto.
Qed.

(** The submission step: what it asks of the page. *)
Lemma submit_run submitSelector formFields s :
  let button := Loc submitSelector in
  exists r submitted,
    submit submitSelector formFields s = (r, logged submitted s)
    /\ ((exists e, resolve button = [e] /\ visible e = true) ->
        actionsOf submitted = [(button, Click)])
    /\ (resolve button = [] \/ (exists e, resolve button = [e] /\ visible e = false) ->
        match last formFields with
        | Some lastField =>
            actionsOf submitted =
            [(locatorOf (selector lastField), Press "Enter")]
        | None => actionsOf submitted = [] /\ r = Ok tt
        end).
Proof.
  intros button. unfold submit, locator, isVisible. run.
  assert (Hfallback : exists r submitted,
            match last formFields with
            | Some lastField =>
                toLocator (selector lastField) ≫= fun lastLocator =>
                perform lastLocator (Press "Enter")
            | None => mret tt
            end (logged [EvIsVisible button] (logged [EvLocator submitSelector] s)) =
            (r, logged submitted s)
            /\ match last formFields with
               | Some lastField =>
                   actionsOf submitted =
                   [(locatorOf (selector lastField), Press "Enter")]
               | None => actionsOf submitted = [] /\ r = Ok tt
               end).
  { destruct (last formFields) as [lastField|].
    - destruct (selector lastField) as [sel|l]; cbn [toLocator locatorOf].
      + unfold locator. run.
        edestruct (perform_logged (Loc sel) (Press "Enter")) as [r ->].
        rewrite !logged_logged. eauto.
      + run. edestruct (perform_logged l (Press "Enter")) as [r ->].
        rewrite !logged_logged. eauto.
    - run. rewrite logged_logged. eauto. }
  fold button. destruct (resolve button) as [|e [|e' rest]] eqn:Hres.
  - run. destruct Hfallback as (r & submitted & -> & Hlast).
    exists r, submitted. split; [done|]. split; [|done].
    by intros (e & ? & _).
  - run. destruct (visible e) eqn:Hvis.
    + edestruct (perform_logged button Click) as [r ->].
      rewrite !logged_logged. eexists _, _. split; [done|]. split; [done|].
      intros [?|(e' & [= <-] & ?)]; congruence.
    + destruct Hfallback as (r & submitted & -> & Hlast).
      exists r, submitted. split; [done|]. split; [|done].
      intros (e' & [= <-] & ?). congruence.
  - run. rewrite logged_logged. eexists _, _. split; [done|]. split.
    + by intros (? & ? & _).
    + intros [?|(? & ? & _)]; done.
Qed.

(** Installing the call-scoped locale either aborts the call untouched or
    swaps the generator without a trace. *)
Lemma installLocale_run (locale : option string) s :
  (exists l, requested locale = Some l /\ l <> "en" /\
     match requested locale with
     | Some l =>
         liftResult (getLocaleDefinition l) ≫= fun localeDefinition =>
         newFaker localeDefinition ≫= fun f => setFaker f
     | None => mret tt
     end s = (Throw (UnsupportedLocale l), s))
  \/ (exists s0,
        match requested locale with
        | Some l =>
            liftResult (getLocaleDefinition l) ≫= fun localeDefinition =>
            newFaker localeDefinition ≫= fun f => setFaker f
        | None => mret tt
        end s = (Ok tt, s0) /\ trace s0 = trace s).
Proof.
  destruct (requested locale) as [l|]; [|right; by exists s].
  destruct (decide (l = "en")) as [->|Hl].
  - right. run. eauto.
  - left. exists l. run. by rewrite getLocaleDefinition_unsupported.
Qed.

Lemma restoreFaker_run (locale : option string) original s :
  exists s',
    match requested locale with
    | Some _ => setFaker original
    | None => mret tt
    end s = (Ok tt, s') /\ trace s' = trace s.
Proof. destruct (requested locale); run; eauto. Qed.

(** C9.  A call of [autoFillForm] with [submitAfterFill] set either stops
    before the submission step (unsupported locale, or a field that could
    not be filled), or it has filled every detected field and then: if the
    element at [submitSelector] is visible, the only action is a click on
    it; otherwise, if fields were filled, the only action is Enter pressed
    on the last of them; and if no field was filled, the whole call asks
    for no action at all, hence neither a click nor a key press. *)
Theorem submit_clicks_visible_button_else_presses_enter options s r s' :
  submitAfterFill options = Some true ->
  autoFillForm options s = (r, s') ->
  let button := Loc (default "button[type='submit']" (submitSelector options)) in
  let formFields :=
    applyCustomFields (default [] (customFields options))
      (collected (default "form" (formSelector options))
         (default [] (excludeSelectors options))
         (default 50%Z (maxElements options)) fieldSelectors []) in
  (exists l, requested (a_locale options) = Some l /\ l <> "en"
     /\ r = Throw (UnsupportedLocale l) /\ s' = s)
  \/ (exists e s1, fillForm formFields s1 = (Throw e, s') /\ r = Throw e)
  \/ (exists s1 fieldValues s2 scanned submitted,
        trace s1 = (scanned ++ trace s)%list /\ actionsOf scanned = []
        /\ fillForm formFields s1 = (Ok fieldValues, s2)
        /\ trace s' = (submitted ++ trace s2)%list
        /\ ((exists e, resolve button = [e] /\ visible e = true) ->
            actionsOf submitted = [(button, Click)])
        /\ (resolve button = [] \/
            (exists e, resolve button = [e] /\ visible e = false) ->
            match last formFields with
            | Some lastField =>
                actionsOf submitted =
                [(locatorOf (selector lastField), Press "Enter")]
            | None =>
                actionsOf submitted = []
                /\ exists evs, trace s' = (evs ++ trace s)%list /\ actionsOf evs = []
            end)).
Proof.
  intros Hsubmit Hrun button formFields.
  unfold autoFillForm in Hrun. rewrite Hsubmit in Hrun. cbn [default] in Hrun.
  rewrite bind_run in Hrun. cbn [getFaker] in Hrun. rewrite bind_run in Hrun.
  destruct (installLocale_run (a_locale options) s)
    as [(l & Hreq & Hl & Hlocale)|(s0 & Hlocale & Htrace0)];
    rewrite Hlocale in Hrun.
  { injection Hrun as <- <-. left. by exists l. }
  right. rewrite bind_run in Hrun.
  destruct (detectFormFields_run (default "form" (formSelector options))
              (default [] (excludeSelectors options))
              (default 50%Z (maxElements options)) s0)
    as (scanned & Hscan & Hscanned).
  rewrite Hscan in Hrun. fold formFields in Hrun. rewrite bind_run in Hrun.
  destruct (fillForm formFields (logged scanned s0))
    as [[fieldValues|e] s2] eqn:Hfill.
  2:{ injection Hrun as <- <-. left. by exists e, (logged scanned s0). }
  right. rewrite bind_run in Hrun. cbn [when id] in Hrun.
  destruct (submit_run (default "button[type='submit']" (submitSelector options))
              formFields s2) as (r3 & submitted & Hsub & Hvisible & Hhidden).
  fold button in Hvisible, Hhidden. rewrite Hsub in Hrun.
  assert (Htrace : trace s' = (submitted ++ trace s2)%list).
  { destruct r3 as [[]|e].
    - rewrite bind_run in Hrun.
      destruct (restoreFaker_run (a_locale options) (faker s) (logged submitted s2))
        as (s4 & Hrestore & Htrace4).
      rewrite Hrestore in Hrun. injection Hrun as _ <-. by rewrite Htrace4.
    - by injection Hrun as _ <-. }
  exists (logged scanned s0), fieldValues, s2, scanned, submitted.
  split; [by simpl; rewrite Htrace0|]. do 4 (split; [done|]).
  intros Hinvisible. specialize (Hhidden Hinvisible).
  destruct (last formFields) as [lastField|] eqn:Hlast; [done|].
  destruct Hhidden as [Hnone _]. split; [done|].
  apply last_None in Hlast. rewrite Hlast, fillForm_nil in Hfill.
  injection Hfill as _ <-.
  exists (submitted ++ scanned)%list. split.
  - rewrite Htrace. simpl. by rewrite Htrace0, app_assoc.
  - by rewrite actionsOf_app, Hnone, Hscanned.
Qed.

(** ** Further properties of the scanner *)

Lemma collected_length_bound formSelector excludeSelectors maxElements kinds :
  forall formFields,
  (Z.of_nat (length formFields) < maxElements)%Z ->
  (Z.of_nat (length (collected formSelector excludeSelectors maxElements kinds
                       formFields)) <= 2 * maxElements - 1)%Z.
Proof.
  induction kinds as [|k kinds IH]; intros formFields Hlt; simpl; [lia|].
  pose proof (contribution_at_most_maxElements formSelector excludeSelectors
                maxElements k) as Hk.
  destruct (Z.leb_spec maxElements
              (Z.of_nat (length (formFields ++
                 contribution formSelector excludeSelectors maxElements k)))) as [H|H].
  - rewrite length_app in *. lia.
  - by apply IH.
Qed.

(** X1.  The cap the scanner really enforces: it returns fewer than
    [2 * maxElements] descriptors, and none at all when [maxElements] is
    zero or negative. *)
Theorem detectFormFields_returns_fewer_than_twice_maxElements
    formSelector excludeSelectors maxElements s :
  exists formFields s',
    detectFormFields formSelector excludeSelectors maxElements s =
    (Ok formFields, s')
    /\ (Z.of_nat (length formFields) <= Z.max 0 (2 * maxElements - 1))%Z.
Proof.
  destruct (detectFormFields_run formSelector excludeSelectors maxElements s)
    as (evs & Hrun & _).
  eexists _, _. split; [exact Hrun|].
  destruct (Z.lt_ge_cases 0 maxElements) as [Hpos|Hneg].
  - pose proof (collected_length_bound formSelector excludeSelectors maxElements
                  fieldSelectors [] ltac:(simpl; lia)).
    lia.
  - unfold fieldSelectors. cbn [collected app].
    pose proof (contribution_at_most_maxElements formSelector excludeSelectors
                  maxElements
                  (hd EmptyString fieldSelectors)) as Hk.
    unfold fieldSelectors in Hk. cbn [hd] in Hk.
    destruct (contribution _ _ _ _) as [|f fs] eqn:Hc; [|simpl in Hk; lia].
    destruct (Z.leb_spec maxElements (Z.of_nat (length (@nil FieldConfig))));
      [simpl; lia|simpl in *; lia].
Qed.

(** X2.  Scanning only reads the page: however a call of
    [detectFormFields] ends, the events it recorded (locator, count,
    attribute and tag reads) hold no action, and the generator and the
    counters are as before. *)
Theorem detectFormFields_only_reads
    formSelector excludeSelectors maxElements s r s' :
  detectFormFields formSelector excludeSelectors maxElements s = (r, s') ->
  exists evs,
    trace s' = (evs ++ trace s)%list
    /\ actionsOf evs = []
    /\ faker s' = faker s
    /\ created s' = created s
    /\ draws s' = draws s.
Proof.
  intros Hrun.
  destruct (detectFormFields_run formSelector excludeSelectors maxElements s)
    as (evs & Hrun' & Hquiet).
  rewrite Hrun' in Hrun. injection Hrun as <- <-. by exists evs.
Qed.

Lemma collected_nil formSelector excludeSelectors maxElements kinds :
  (forall k, contribution formSelector excludeSelectors maxElements k = []) ->
  collected formSelector excludeSelectors maxElements kinds [] = [].
Proof.
  intros H. induction kinds as [|k kinds IH]; simpl; [done|].
  rewrite H. simpl. by destruct (_ <=? _)%Z.
Qed.

(** X3.  An empty string among [excludeSelectors] excludes every element
    (every selector contains it): the scanner returns no descriptor. *)
Theorem empty_exclude_string_excludes_everything
    formSelector excludeSelectors maxElements s :
  In EmptyString excludeSelectors ->
  exists s',
    detectFormFields formSelector excludeSelectors maxElements s = (Ok [], s').
Proof.
  intros Hin.
  destruct (detectFormFields_run formSelector excludeSelectors maxElements s)
    as (evs & Hrun & _).
  rewrite Hrun, collected_nil; [eauto|].
  intros k. unfold contribution.
  assert (Hnone : forall (l : list (string * FieldType)),
            filter (fun d => excluded excludeSelectors d.1 = false) l = []).
  { induction l as [|d l IH]; [done|].
    rewrite filter_cons, decide_False; [done|].
    rewrite (excluded_by excludeSelectors EmptyString); [done|done|].
    apply includes_empty. }
  by rewrite Hnone.
Qed.

(** X4.  Exclusion is by substring: an entry [#p] drops every element whose
    id starts with [p], not only the element with id [p]. *)
Theorem exclude_entry_matches_longer_ids
    formSelector excludeSelectors maxElements s p rest :
  In ("#" +:+ p) excludeSelectors ->
  exists formFields s',
    detectFormFields formSelector excludeSelectors maxElements s =
    (Ok formFields, s')
    /\ Forall (fun f => selector f <> BySelector ("#" +:+ p +:+ rest)) formFields.
Proof.
  intros Hin.
  destruct (detectFormFields_run formSelector excludeSelectors maxElements s)
    as (evs & Hrun & _).
  eexists _, _. split; [exact Hrun|].
  eapply Forall_impl;
    [apply (collected_notExcluded formSelector excludeSelectors maxElements
              fieldSelectors []); constructor|].
  intros f (sel & Hsel & Hex) Heq. rewrite Hsel in Heq. injection Heq as ->.
  rewrite (excluded_by excludeSelectors ("#" +:+ p)) in Hex; [done|done|].
  change ("#" +:+ p +:+ rest) with (("#" +:+ p) +:+ rest).
  apply includes_prefix.
Qed.

(** ** Further properties of the classifier *)

Lemma asciiToLower_idempotent c : asciiToLower (asciiToLower c) = asciiToLower c.
Proof. by destruct c as [[] [] [] [] [] [] [] []]. Qed.

Lemma toLowerCase_idempotent s : toLowerCase (toLowerCase s) = toLowerCase s.
Proof.
  induction s as [|c s IH]; simpl; [done|].
  by rewrite asciiToLower_idempotent, IH.
Qed.

Lemma truthy_toLowerCase s : truthy (toLowerCase s) = truthy s.
Proof. by destruct s. Qed.

(** X5.  Classification ignores letter case: the declared type and every
    text signal may be replaced by their lower-case forms without changing
    the outcome of [determineFieldType]. *)
Theorem determineFieldType_ignores_case
    l declared name id placeholder ariaLabel label s :
  determineFieldType l declared name id placeholder ariaLabel label s =
  determineFieldType l (toLowerCase declared) (toLowerCase name) (toLowerCase id)
    (toLowerCase placeholder) (toLowerCase ariaLabel) (toLowerCase label) s.
Proof.
  unfold determineFieldType.
  by rewrite !toLowerCase_idempotent, truthy_toLowerCase.
Qed.

Lemma table_without_CUSTOM : Forall (fun kv => kv.2 <> CUSTOM) fieldTypeMappings.
Proof. apply (bool_decide_unpack _). by vm_compute. Qed.

Lemma lookupMapping_value table key t :
  lookupMapping table key = Some t ->
  (exists k, In (k, t) table) \/ t = Inherited key.
Proof.
  induction table as [|[k t'] table IH]; cbn [lookupMapping].
  - destruct (existsb _ _); [|done]. intros [= <-]. by right.
  - destruct (String.eqb k key).
    + intros [= ->]. left. exists k. by left.
    + intros H. destruct (IH H) as [[k' ?]|?]; [|by right].
      left. exists k'. by right.
Qed.

Lemma scanMappings_value table text t :
  scanMappings table text = Some t -> exists k, In (k, t) table.
Proof.
  induction table as [|[k t'] table IH]; simpl; [done|].
  destruct (includes text (toLowerCase k)).
  - intros [= ->]. eauto.
  - intros H. destruct (IH H) as [k' ?]. eauto.
Qed.

Lemma table_value_not_CUSTOM k t : In (k, t) fieldTypeMappings -> t <> CUSTOM.
Proof.
  intros H. pose proof table_without_CUSTOM as Hall.
  rewrite Forall_forall in Hall. apply list_elem_of_In in H.
  exact (Hall _ H).
Qed.

Lemma firstDecisive_not_CUSTOM rules :
  Forall (fun r => r <> Some CUSTOM) rules -> firstDecisive rules <> CUSTOM.
Proof.
  induction 1 as [|[t|] rules Hr _ IH]; simpl; [done|congruence|done].
Qed.

Lemma textSignal_not_CUSTOM text : textSignal text <> Some CUSTOM.
Proof.
  unfold textSignal. intros H.
  apply scanMappings_value in H as [k Hk].
  by apply table_value_not_CUSTOM in Hk.
Qed.

Lemma declaredCategory_not_CUSTOM declared :
  declaredCategory declared <> Some CUSTOM.
Proof.
  unfold declaredCategory. destruct (truthy declared); [|done]. intros H.
  apply lookupMapping_value in H as [[k Hk]|?]; [|done].
  by apply table_value_not_CUSTOM in Hk.
Qed.

Lemma classify_not_CUSTOM tag declared name id placeholder ariaLabel label :
  classify tag declared name id placeholder ariaLabel label <> CUSTOM.
Proof.
  unfold classify. apply firstDecisive_not_CUSTOM.
  repeat apply Forall_cons_2; try apply Forall_nil_2;
    try apply textSignal_not_CUSTOM; try apply declaredCategory_not_CUSTOM.
  - by destruct (String.eqb tag "select").
  - by destruct (String.eqb tag "textarea").
Qed.

Lemma collected_Forall (P : FieldConfig -> Prop)
    formSelector excludeSelectors maxElements kinds :
  (forall k, Forall P (contribution formSelector excludeSelectors maxElements k)) ->
  forall formFields,
  Forall P formFields ->
  Forall P (collected formSelector excludeSelectors maxElements kinds formFields).
Proof.
  intros Hk. induction kinds as [|k kinds IH]; intros formFields H; simpl; [done|].
  assert (Forall P (formFields ++
            contribution formSelector excludeSelectors maxElements k))
    by (apply Forall_app; split; [done|apply Hk]).
  destruct (_ <=? _)%Z; [done|by apply IH].
Qed.

(** X6.  Every descriptor the scanner returns is a bare [{ selector, type }]
    record addressed by a string selector, and its category is never
    CUSTOM: that category only comes from the caller. *)
Theorem detectFormFields_never_yields_CUSTOM
    formSelector excludeSelectors maxElements s :
  exists formFields s',
    detectFormFields formSelector excludeSelectors maxElements s =
    (Ok formFields, s')
    /\ Forall (fun f => exists sel t, f = detected sel t /\ t <> CUSTOM) formFields.
Proof.
  destruct (detectFormFields_run formSelector excludeSelectors maxElements s)
    as (evs & Hrun & _).
  eexists _, _. split; [exact Hrun|].
  apply collected_Forall; [|constructor].
  intros k. unfold contribution. apply Forall_fmap, Forall_forall.
  intros d Hd. apply list_elem_of_filter in Hd as [_ Hd].
  apply list_elem_of_lookup in Hd as [i Hi].
  rewrite list_lookup_imap in Hi.
  destruct (examined _ _ _ !! i) as [e|]; [|done].
  injection Hi as <-. simpl. eexists _, _. split; [reflexivity|].
  apply classify_not_CUSTOM.
Qed.

(** ** The priority order of the classifier *)

Lemma lookupMapping_of_key key t :
  In (key, t) fieldTypeMappings ->
  lookupMapping fieldTypeMappings key = Some t /\ truthy key = true.
Proof.
  unfold fieldTypeMappings. simpl In. intros H.
  repeat (destruct H as [[= <- <-]|H]; [by vm_compute|]). done.
Qed.

Lemma lookupMapping_of_member member :
  In member objectPrototypeMembers ->
  lookupMapping fieldTypeMappings member = Some (Inherited member)
  /\ truthy member = true.
Proof.
  unfold objectPrototypeMembers. simpl In. intros H.
  repeat (destruct H as [<-|H]; [by vm_compute|]). done.
Qed.

Lemma lookupMapping_undefined table key :
  (forall t, ~ In (key, t) table) -> ~ In key objectPrototypeMembers ->
  lookupMapping table key = None.
Proof.
  intros Hkey Hmember. induction table as [|[k t] table IH]; cbn [lookupMapping].
  - destruct (existsb _ _) eqn:Hex; [|done].
    apply existsb_exists in Hex as (m & Hm & Heq).
    apply String.eqb_eq in Heq as <-. done.
  - destruct (String.eqb_spec k key) as [->|_].
    + destruct (Hkey t). by left.
    + apply IH. intros t' Hin. apply (Hkey t'). by right.
Qed.

(** [scanMappings] returns the value of the first entry whose keyword
    occurs in the text. *)
Lemma scanMappings_spec text table r :
  FirstMatch text table r -> scanMappings table text = r.
Proof.
  induction 1 as [|pattern t rest Hocc|pattern t rest r Hocc _ IH];
    cbn [scanMappings]; [done| |].
  - apply includes_spec in Hocc. by rewrite Hocc.
  - destruct (includes text (toLowerCase pattern)) eqn:Hinc; [|done].
    by apply includes_spec in Hinc.
Qed.

(** X23.  The priority order of [determineFieldType], on a resolved element.
    A [select] tag gives SELECT and a [textarea] tag gives TEXTAREA whatever
    the other signals say.  Otherwise the declared type is looked up,
    lower-cased, in the static table: a keyword of the table gives that
    keyword's category whatever the text signals say, and so does, with
    the member itself as the result, the name of a member the table
    inherits from [Object.prototype].  Only when the declared type is
    neither are name, id, placeholder, aria-label and label scanned, in
    that order, each for the first table entry whose keyword it contains,
    the first match winning; with no match the result is TEXT. *)
Theorem determineFieldType_strict_priority
    l e declared name id placeholder ariaLabel label s :
  resolve l = [e] ->
  let tag := toLowerCase (tagName e) in
  let result :=
    fst (determineFieldType l declared name id placeholder ariaLabel label s) in
  (tag = "select" -> result = Ok SELECT)
  /\ (tag = "textarea" -> result = Ok TEXTAREA)
  /\ (tag <> "select" -> tag <> "textarea" ->
      (forall t, In (toLowerCase declared, t) fieldTypeMappings -> result = Ok t)
      /\ (In (toLowerCase declared) objectPrototypeMembers ->
          result = Ok (Inherited (toLowerCase declared)))
      /\ ((forall t, ~ In (toLowerCase declared, t) fieldTypeMappings) ->
          ~ In (toLowerCase declared) objectPrototypeMembers ->
          forall byName byId byPlaceholder byAriaLabel byLabel,
            FirstMatch (toLowerCase name) fieldTypeMappings byName ->
            FirstMatch (toLowerCase id) fieldTypeMappings byId ->
            FirstMatch (toLowerCase placeholder) fieldTypeMappings byPlaceholder ->
            FirstMatch (toLowerCase ariaLabel) fieldTypeMappings byAriaLabel ->
            FirstMatch (toLowerCase label) fieldTypeMappings byLabel ->
            result =
            Ok (firstDecisive [byName; byId; byPlaceholder; byAriaLabel; byLabel]))).
Proof.
  intros Hr tag result. subst result.
  rewrite (determineFieldType_run l e) by done. fold tag. cbn [fst].
  unfold classify. split; [|split].
  - intros ->. done.
  - intros ->. done.
  - intros Hs Ht.
    apply String.eqb_neq in Hs, Ht. rewrite Hs, Ht. cbn [firstDecisive].
    unfold declaredCategory. rewrite <- (truthy_toLowerCase declared).
    split; [|split].
    + intros t [-> ->]%lookupMapping_of_key. done.
    + intros [-> ->]%lookupMapping_of_member. done.
    + intros Hkey Hmember byName byId byPlaceholder byAriaLabel byLabel
        HbyName HbyId HbyPlaceholder HbyAriaLabel HbyLabel.
      rewrite (lookupMapping_undefined _ _ Hkey Hmember).
      unfold textSignal.
      rewrite (scanMappings_spec _ _ _ HbyName), (scanMappings_spec _ _ _ HbyId),
        (scanMappings_spec _ _ _ HbyPlaceholder),
        (scanMappings_spec _ _ _ HbyAriaLabel),
        (scanMappings_spec _ _ _ HbyLabel).
      by destruct (truthy _).
Qed.

(** ** Further properties of the value generator *)

Lemma floorTimes_below r n : (0 < n)%nat -> (floorTimes r n < n)%nat.
Proof.
  intros Hn. unfold floorTimes, randomScale.
  pose proof (Z.mod_pos_bound r (2 ^ 53) ltac:(lia)) as Hr.
  assert ((r mod 2 ^ 53) * Z.of_nat n / 2 ^ 53 < Z.of_nat n)%Z.
  { apply Z.div_lt_upper_bound; [lia|]. nia. }
  assert (0 <= (r mod 2 ^ 53) * Z.of_nat n / 2 ^ 53)%Z
    by (apply Z.div_pos; [nia|lia]).
  lia.
Qed.

Lemma pick_elem xs r : xs <> [] -> pick xs r ∈ xs.
Proof.
  intros Hxs. unfold pick.
  destruct (lookup_lt_is_Some_2 xs (floorTimes r (length xs))) as [v Hv].
  { apply floorTimes_below. destruct xs; [done|simpl; lia]. }
  rewrite Hv. simpl. by eapply list_elem_of_lookup_2.
Qed.

Lemma toLocator_run t s :
  toLocator t s = (Ok (locatorOf t), logged (locating t) s).
Proof. destruct t; simpl; [done|by rewrite logged_nil]. Qed.

Lemma liveOptions_elem e v :
  v ∈ liveOptions e ->
  exists os o,
    selectOptions e = Some os /\ o ∈ os /\ optionValue o = v
    /\ v <> EmptyString /\ optionDisabled o = false.
Proof.
  unfold liveOptions. destruct (selectOptions e) as [os|]; [|by intros ?%elem_of_nil].
  intros (o & -> & Ho)%list_elem_of_fmap.
  apply list_elem_of_filter in Ho as [Hlive Ho].
  apply andb_true_iff in Hlive as [Hv Hd]. apply negb_true_iff in Hd.
  exists os, o. repeat split; try done. by destruct (optionValue o).
Qed.

Lemma liveOptions_none e : liveOptions e = [] -> noLiveOption e.
Proof.
  unfold liveOptions, noLiveOption. intros H os Hos. rewrite Hos in H.
  apply fmap_nil_inv in H. apply Forall_forall. intros o Ho.
  destruct (optionValue o) as [|c v] eqn:Hv; [by left|].
  destruct (optionDisabled o) eqn:Hd; [by right|].
  assert (Hin : o ∈ filter (fun o => truthy (optionValue o)
                                     && negb (optionDisabled o) = true) os).
  { apply list_elem_of_filter. split; [by rewrite Hv, Hd|done]. }
  rewrite H in Hin. by apply elem_of_nil in Hin.
Qed.

(** X7.  [getRandomSelectOption] on a resolved element returns: the empty
    string when every option of the element is disabled or has an empty
    value (or the element has no options), and otherwise the value of one
    of its options that is enabled and has a non-empty value, after one
    random draw.  It never returns a disabled option or a placeholder
    option. *)
Theorem getRandomSelectOption_picks_usable_option selector e s :
  resolve (locatorOf selector) = [e] ->
  exists v s',
    getRandomSelectOption selector s = (Ok v, s')
    /\ ((noLiveOption e /\ v = EmptyString /\ draws s' = draws s)
        \/ (exists os o,
              selectOptions e = Some os /\ o ∈ os /\ optionValue o = v
              /\ v <> EmptyString /\ optionDisabled o = false
              /\ draws s' = S (draws s))).
Proof.
  intros Hres. unfold getRandomSelectOption.
  rewrite bind_run, toLocator_run. run.
  rewrite (element_run _ e) by done.
  destruct (liveOptions e) as [|o os] eqn:Hlive.
  - simpl. eexists _, _. split; [reflexivity|]. left.
    split; [by apply liveOptions_none|done].
  - cbn [length Nat.eqb]. unfold random. run.
    eexists _, _. split; [reflexivity|]. right.
    destruct (liveOptions_elem e (pick (o :: os) (mathRandom (draws s))))
      as (os' & o' & ? & ? & ? & ? & ?).
    { rewrite Hlive. by apply pick_elem. }
    exists os', o'. by repeat split.
Qed.

(** X8.  A SELECT field with a non-empty [options] list takes its value
    from that list without touching the page: the value is a member of
    the list, no event is recorded, and one random draw is consumed. *)
Theorem select_with_options_picks_a_listed_option fieldConfig o os s :
  type fieldConfig = SELECT ->
  valueGenerator fieldConfig = None ->
  options fieldConfig = Some (o :: os) ->
  exists v s',
    generateValue fieldConfig s = (Ok (VString v), s')
    /\ v ∈ o :: os
    /\ trace s' = trace s
    /\ draws s' = S (draws s)
    /\ faker s' = faker s.
Proof.
  intros Htype Hgen Hopts. unfold generateValue.
  rewrite Hgen, Htype, Hopts. unfold random. run.
  eexists _, _. split; [reflexivity|]. split; [by apply pick_elem|done].
Qed.

(** X9.  Without [valueGenerator], the kind of value generated is fixed by
    the category: a boolean for CHECKBOX and RADIO, a number for NUMBER,
    and a string for every other category; never a date. *)
Theorem generated_value_kind_follows_category fieldConfig s value s' :
  valueGenerator fieldConfig = None ->
  generateValue fieldConfig s = (Ok value, s') ->
  match type fieldConfig with
  | CHECKBOX | RADIO => exists b, value = VBoolean b
  | NUMBER => exists n, value = VNumber n
  | _ => exists str, value = VString str
  end.
Proof.
  intros Hgen. unfold generateValue. rewrite Hgen.
  destruct (type fieldConfig); unfold callFaker, random; run;
    try (intros [= <- _]; eauto; fail).
  - destruct (fakerInt _ _ _ _); run; [|done]. intros [= <- _]. eauto.
  - destruct (options fieldConfig) as [[|? ?]|]; run;
      try (intros [= <- _]; eauto; fail);
      destruct (getRandomSelectOption _ _) as [[?|?] ?]; run;
      try done; intros [= <- _]; eauto.
Qed.

(** ** Methods that only read the page *)

Create HintDb quiet.

Lemma quiet_still {A} (m : M A) :
  (forall s, trace (m s).2 = trace s) -> quiet m.
Proof. intros H s. exists []. by rewrite H. Qed.

Lemma quiet_ret {A} (a : A) : quiet (mret a).
Proof. by apply quiet_still. Qed.

Lemma quiet_throw {A} e : quiet (@throw A e).
Proof. by apply quiet_still. Qed.

Lemma quiet_liftResult {A} (r : Result A) : quiet (liftResult r).
Proof. by apply quiet_still. Qed.

Lemma quiet_getFaker : quiet getFaker.
Proof. by apply quiet_still. Qed.

Lemma quiet_setFaker f : quiet (setFaker f).
Proof. by apply quiet_still. Qed.

Lemma quiet_newFaker d : quiet (newFaker d).
Proof. by apply quiet_still. Qed.

Lemma quiet_nextDraw : quiet nextDraw.
Proof. by apply quiet_still. Qed.

Lemma quiet_emit ev : actionsOf [ev] = [] -> quiet (emit ev).
Proof. intros H s. by exists [ev]. Qed.

Lemma quiet_bind {A B} (m : M A) (f : A -> M B) :
  quiet m -> (forall a, quiet (f a)) -> quiet (m ≫= f).
Proof.
  intros Hm Hf s. rewrite bind_run. destruct (Hm s) as (evs & Ht & Ha).
  destruct (m s) as [[a|e] s1]; simpl in *; [|by exists evs].
  destruct (Hf a s1) as (evs' & Ht' & Ha'). exists (evs' ++ evs)%list.
  by rewrite Ht', Ht, app_assoc, actionsOf_app, Ha, Ha'.
Qed.

Hint Resolve quiet_ret quiet_throw quiet_liftResult quiet_getFaker
  quiet_setFaker quiet_newFaker quiet_nextDraw : quiet.

Ltac quiet_step :=
  repeat first
    [ solve [eauto with quiet]
    | apply quiet_emit; reflexivity
    | apply quiet_bind; [|intros ?] ].

Lemma quiet_element l : quiet (element l).
Proof. unfold element. destruct (resolve l) as [|? [|? ?]]; eauto with quiet. Qed.

Hint Resolve quiet_element : quiet.

Lemma quiet_toLocator t : quiet (toLocator t).
Proof. destruct t; simpl; [unfold locator|]; quiet_step. Qed.

Lemma quiet_random : quiet random.
Proof. unfold random. quiet_step. Qed.

Lemma quiet_callFaker c : quiet (callFaker c).
Proof. unfold callFaker. quiet_step. Qed.

Hint Resolve quiet_toLocator quiet_random quiet_callFaker : quiet.

Lemma quiet_getRandomSelectOption t : quiet (getRandomSelectOption t).
Proof.
  unfold getRandomSelectOption. quiet_step.
  destruct (_ =? _)%nat; quiet_step.
Qed.

Hint Resolve quiet_getRandomSelectOption : quiet.

(** Generating a value may read the page (the options of a dropdown) but
    never acts on it. *)
Lemma quiet_generateValue fieldConfig : quiet (generateValue fieldConfig).
Proof.
  unfold generateValue.
  destruct (valueGenerator fieldConfig); [eauto with quiet|].
  destruct (type fieldConfig); try solve [quiet_step].
  destruct (options fieldConfig) as [[|? ?]|]; quiet_step.
Qed.

(** ** Further properties of the filler *)

Lemma postActions_accepted l e fieldConfig s :
  resolve l = [e] ->
  (forall a, accepts page e a = true) ->
  exists post,
    (when (clickAfterFill fieldConfig) (perform l Click) ≫= fun _ =>
     when (pressEnterAfterFill fieldConfig) (perform l (Press "Enter")) ≫= fun _ =>
     when (blurAfterFill fieldConfig) (perform l Blur)) s =
    (Ok tt, logged post s)
    /\ rev (actionsOf post) = postRequests l fieldConfig.
Proof.
  intros H Hacc. unfold when, postRequests.
  destruct (clickAfterFill fieldConfig), (pressEnterAfterFill fieldConfig),
    (blurAfterFill fieldConfig);
    run; rewrite ?(perform_run l e), ?Hacc by done; run;
    rewrite ?(perform_run l e), ?Hacc by done; run;
    rewrite ?(perform_run l e), ?Hacc by done; run;
    rewrite ?logged_logged; simpl app;
    (eexists; split;
     [first [reflexivity | by rewrite <- (logged_nil s) at 1]|reflexivity]).
Qed.

(** X10.  When the element resolves and the page accepts every request,
    [applyValueToField] returns after sending at most one value-applying
    request, followed by the requested post-actions in the fixed order
    click, Enter, blur. *)
Theorem applyValueToField_orders_post_actions l e fieldConfig value s :
  resolve l = [e] ->
  (forall a, accepts page e a = true) ->
  exists evs main,
    applyValueToField l fieldConfig value s = (Ok tt, logged evs s)
    /\ rev (actionsOf evs) = (main ++ postRequests l fieldConfig)%list
    /\ (length main <= 1)%nat.
Proof.
  intros Hres Hacc. unfold applyValueToField.
  rewrite bind_run, (getTagName_run l e) by done.
  rewrite bind_run, (getInputType_run l e) by done.
  rewrite bind_run, logged_logged. simpl app.
  set (s0 := logged [EvInputType l; EvTagName l] s).
  assert (Hmain : forall a,
            exists evs main,
              (let (r, s') := perform l a s0 in
               match r with
               | Ok _ =>
                   (when (clickAfterFill fieldConfig) (perform l Click) ≫= fun _ =>
                    when (pressEnterAfterFill fieldConfig)
                      (perform l (Press "Enter")) ≫= fun _ =>
                    when (blurAfterFill fieldConfig) (perform l Blur)) s'
               | Throw e0 => (Throw e0, s')
               end) = (Ok tt, logged evs s)
              /\ rev (actionsOf evs) = (main ++ postRequests l fieldConfig)%list
              /\ (length main <= 1)%nat).
  { intros a. rewrite (perform_run l e), Hacc by done.
    destruct (postActions_accepted l e fieldConfig (logged [EvAction l a] s0)
                Hres Hacc) as (post & -> & Hpost).
    subst s0. rewrite !logged_logged.
    eexists _, [(l, a)]. split; [reflexivity|]. split; [|done].
    rewrite !actionsOf_app, !rev_app_distr, Hpost. done. }
  assert (Hnone :
            exists evs main,
              (when (clickAfterFill fieldConfig) (perform l Click) ≫= fun _ =>
               when (pressEnterAfterFill fieldConfig)
                 (perform l (Press "Enter")) ≫= fun _ =>
               when (blurAfterFill fieldConfig) (perform l Blur)) s0 = (Ok tt, logged evs s)
              /\ rev (actionsOf evs) = (main ++ postRequests l fieldConfig)%list
              /\ (length main <= 1)%nat).
  { destruct (postActions_accepted l e fieldConfig s0 Hres Hacc)
      as (post & -> & Hpost).
    subst s0. rewrite !logged_logged.
    eexists _, []. split; [reflexivity|]. split; [|simpl; lia].
    rewrite !actionsOf_app, !rev_app_distr, Hpost. done. }
  destruct (String.eqb _ "select").
  { destruct value; [apply Hmain|cbn [mret M_ret]; apply Hnone..]. }
  destruct (_ && _).
  { destruct value as [?|[|]|?|?];
      [cbn [mret M_ret]; apply Hnone|apply Hmain..
      |cbn [mret M_ret]; apply Hnone|cbn [mret M_ret]; apply Hnone]. }
  destruct (if _ && _ then _ else _); apply Hmain.
Qed.

(** X11.  How dropdowns and toggles are driven.  On a [select] element the
    only value-applying request is [selectOption], sent for a string value
    and for no other; on a checkbox or radio input it is [check] for [true]
    and [uncheck] for [false], and nothing for any other value.  Such
    elements are never filled as text, and only post-actions can follow. *)
Theorem applyValueToField_dispatches_on_the_live_element
    l e fieldConfig value s :
  resolve l = [e] ->
  let tag := toLowerCase (tagName e) in
  let ty := toLowerCase <$> inputType e in
  tag = "select" \/ (tag = "input" /\ (ty = Some "checkbox" \/ ty = Some "radio")) ->
  exists r post main,
    applyValueToField l fieldConfig value s =
    (r, logged (post ++ main ++ [EvInputType l; EvTagName l]) s)
    /\ Forall (postAction l) post
    /\ (tag = "select" ->
        main = match value with
               | VString str => [EvAction l (SelectOption str)]
               | _ => []
               end)
    /\ (tag = "input" ->
        main = match value with
               | VBoolean true => [EvAction l Check]
               | VBoolean false => [EvAction l Uncheck]
               | _ => []
               end).
Proof.
  intros Hres tag ty Hkind. unfold applyValueToField.
  rewrite bind_run, (getTagName_run l e) by done.
  rewrite bind_run, (getInputType_run l e) by done.
  rewrite bind_run, logged_logged. simpl app. fold tag ty.
  set (s0 := logged [EvInputType l; EvTagName l] s).
  assert (Hmain : forall a,
            exists r post,
              (let (r, s') := perform l a s0 in
               match r with
               | Ok _ =>
                   (when (clickAfterFill fieldConfig) (perform l Click) ≫= fun _ =>
                    when (pressEnterAfterFill fieldConfig)
                      (perform l (Press "Enter")) ≫= fun _ =>
                    when (blurAfterFill fieldConfig) (perform l Blur)) s'
               | Throw e0 => (Throw e0, s')
               end) =
              (r, logged (post ++ [EvAction l a] ++ [EvInputType l; EvTagName l]) s)
              /\ Forall (postAction l) post).
  { intros a. rewrite (perform_run l e) by done.
    destruct (accepts page e a).
    - destruct (postActions_run l e fieldConfig (logged [EvAction l a] s0) Hres)
        as (r & post & -> & Hpost).
      subst s0. rewrite !logged_logged, <- ?app_assoc. by exists r, post.
    - subst s0. rewrite logged_logged. by eexists _, []. }
  assert (Hnone :
            exists r post,
              (when (clickAfterFill fieldConfig) (perform l Click) ≫= fun _ =>
               when (pressEnterAfterFill fieldConfig)
                 (perform l (Press "Enter")) ≫= fun _ =>
               when (blurAfterFill fieldConfig) (perform l Blur)) s0 =
              (r, logged (post ++ [] ++ [EvInputType l; EvTagName l]) s)
              /\ Forall (postAction l) post).
  { destruct (postActions_run l e fieldConfig s0 Hres) as (r & post & -> & Hpost).
    subst s0. rewrite !logged_logged, <- ?app_assoc. by exists r, post. }
  destruct Hkind as [Htag|[Htag Hty]].
  - rewrite Htag. change (String.eqb "select" "select") with true. cbv iota.
    destruct value as [str| | |]; cbn [mret M_ret];
      [destruct (Hmain (SelectOption str)) as (r & post & -> & Hpost)
      |destruct Hnone as (r & post & -> & Hpost)..];
      eexists r, post, _; (split; [reflexivity|]); (split; [exact Hpost|]);
      (split; [intros _; reflexivity|intros [=]]).
  - rewrite Htag. change (String.eqb "input" "select") with false.
    change (String.eqb "input" "input") with true. cbv iota.
    assert (bool_decide (ty = Some "checkbox") || bool_decide (ty = Some "radio")
            = true) as ->.
    { destruct Hty as [-> | ->]; reflexivity. }
    cbn [andb].
    destruct value as [?|[|]|?|?]; cbn [mret M_ret];
      [destruct Hnone as (r & post & -> & Hpost)
      |destruct (Hmain Check) as (r & post & -> & Hpost)
      |destruct (Hmain Uncheck) as (r & post & -> & Hpost)
      |destruct Hnone as (r & post & -> & Hpost)..];
      eexists r, post, _; (split; [reflexivity|]); (split; [exact Hpost|]);
      (split; [intros [=]|intros _; reflexivity]).
Qed.

Lemma actionsOf_locating t : actionsOf (locating t) = [].
Proof. by destruct t. Qed.

Lemma applyValueToField_unresolved l fieldConfig value s :
  (forall e, resolve l <> [e]) ->
  exists err,
    applyValueToField l fieldConfig value s = (Throw err, logged [EvTagName l] s).
Proof.
  intros H. unfold applyValueToField, getTagName. run. unfold element.
  destruct (resolve l) as [|e [|e' rest]]; [by eexists|by destruct (H e)|by eexists].
Qed.

(** X12.  Filling a field whose target does not resolve to exactly one
    element (none, or several) always throws, and up to that point the
    filler has only read: no value-applying or post-action request is
    ever sent. *)
Theorem fillField_on_unresolved_target_throws_without_acting fieldConfig s :
  (forall e, resolve (locatorOf (selector fieldConfig)) <> [e]) ->
  exists err s' evs,
    fillField fieldConfig s = (Throw err, s')
    /\ trace s' = (evs ++ trace s)%list
    /\ actionsOf evs = [].
Proof.
  intros Hres. unfold fillField.
  rewrite bind_run. cbn [getFaker]. rewrite bind_run.
  destruct (installLocale_run (locale fieldConfig) s)
    as [(l & Hreq & Hl & ->)|(s0 & -> & Htrace0)].
  { by eexists _, _, []. }
  rewrite bind_run, toLocator_run. rewrite bind_run.
  destruct (quiet_generateValue fieldConfig
              (logged (locating (selector fieldConfig)) s0)) as (evs & Ht & Ha).
  destruct (generateValue _ _) as [[v|e] s1]; simpl in Ht.
  - rewrite bind_run.
    destruct (applyValueToField_unresolved (locatorOf (selector fieldConfig))
                fieldConfig v s1 Hres) as [err ->].
    eexists _, _, ([EvTagName _] ++ evs ++ locating (selector fieldConfig))%list.
    split; [reflexivity|]. split.
    + simpl. rewrite Ht. simpl. by rewrite Htrace0, <- app_assoc.
    + by rewrite !actionsOf_app, Ha, actionsOf_locating.
  - eexists _, _, (evs ++ locating (selector fieldConfig))%list.
    split; [reflexivity|]. split.
    + rewrite Ht. simpl. by rewrite Htrace0, <- app_assoc.
    + by rewrite !actionsOf_app, Ha, actionsOf_locating.
Qed.

(** X13.  A [valueGenerator] that throws makes [fillField] throw the same
    error before the element is looked at: apart from building the locator
    nothing is asked of the page. *)
Theorem fillField_propagates_valueGenerator_error fieldConfig generator e s :
  valueGenerator fieldConfig = Some generator ->
  generator tt = Throw e ->
  (forall l, requested (locale fieldConfig) = Some l -> l = "en") ->
  exists s',
    fillField fieldConfig s = (Throw e, s')
    /\ trace s' = (locating (selector fieldConfig) ++ trace s)%list.
Proof.
  intros Hgen Hthrow Hlocale. unfold fillField.
  rewrite bind_run. cbn [getFaker]. rewrite bind_run.
  destruct (installLocale_run (locale fieldConfig) s)
    as [(l & Hreq & Hl & _)|(s0 & -> & Htrace0)].
  { by specialize (Hlocale l Hreq). }
  rewrite bind_run, toLocator_run. rewrite bind_run.
  unfold generateValue. rewrite Hgen. unfold liftResult. rewrite Hthrow.
  eexists. split; [reflexivity|]. simpl. by rewrite Htrace0.
Qed.

Lemma applyValueToField_text l e fieldConfig value s :
  resolve l = [e] ->
  toLowerCase (tagName e) <> "select" ->
  (forall t, toLowerCase <$> inputType e = Some t ->
             t <> "checkbox" /\ t <> "radio" /\ t <> "file") ->
  exists r post,
    applyValueToField l fieldConfig value s =
    (r, logged (post ++ [EvAction l (Fill (String_ value)); EvInputType l;
                         EvTagName l]) s)
    /\ Forall (postAction l) post.
Proof.
  intros Hres Htag Htype. unfold applyValueToField.
  rewrite bind_run, (getTagName_run l e) by done.
  rewrite bind_run, (getInputType_run l e) by done.
  rewrite bind_run.
  apply String.eqb_neq in Htag. rewrite Htag.
  assert (bool_decide (toLowerCase <$> inputType e = Some "checkbox") = false) as ->.
  { apply bool_decide_eq_false. intros H. by destruct (Htype _ H) as (? & _). }
  assert (bool_decide (toLowerCase <$> inputType e = Some "radio") = false) as ->.
  { apply bool_decide_eq_false. intros H. by destruct (Htype _ H) as (_ & ? & _). }
  assert (bool_decide (toLowerCase <$> inputType e = Some "file") = false) as ->.
  { apply bool_decide_eq_false. intros H. by destruct (Htype _ H) as (_ & _ & ?). }
  rewrite !andb_false_r. cbv iota.
  rewrite (perform_run l e) by done. rewrite !logged_logged. simpl app.
  destruct (accepts page e (Fill (String_ value))).
  - destruct (postActions_run l e fieldConfig
                (logged [EvAction l (Fill (String_ value)); EvInputType l;
                         EvTagName l] s) Hres)
      as (r & post & Hrun & Hpost).
    exists r, post. rewrite Hrun, logged_logged. done.
  - exists (Throw (NotActionable l (Fill (String_ value)))), []. done.
Qed.

(** X14.  On a text-like control (not a dropdown, not a checkbox, radio or
    file input) the value [fillField] returns is the value it wrote: the
    page was asked to fill the element with its string form. *)
Theorem fillField_returns_the_value_it_filled fieldConfig e s value s' :
  resolve (locatorOf (selector fieldConfig)) = [e] ->
  toLowerCase (tagName e) <> "select" ->
  (forall t, toLowerCase <$> inputType e = Some t ->
             t <> "checkbox" /\ t <> "radio" /\ t <> "file") ->
  fillField fieldConfig s = (Ok value, s') ->
  EvAction (locatorOf (selector fieldConfig)) (Fill (String_ value)) ∈ trace s'.
Proof.
  intros Hres Htag Htype Hrun. unfold fillField in Hrun.
  rewrite bind_run in Hrun. cbn [getFaker] in Hrun. rewrite bind_run in Hrun.
  destruct (installLocale_run (locale fieldConfig) s)
    as [(l & Hreq & Hl & Hlocale)|(s0 & Hlocale & Htrace0)];
    rewrite Hlocale in Hrun; [done|].
  rewrite bind_run, toLocator_run in Hrun. rewrite bind_run in Hrun.
  destruct (generateValue _ _) as [[v|?] s1]; [|done].
  rewrite bind_run in Hrun.
  destruct (applyValueToField_text (locatorOf (selector fieldConfig)) e
              fieldConfig v s1 Hres Htag Htype) as (r & post & Happly & _).
  rewrite Happly in Hrun. destruct r as [[]|?]; [|done].
  rewrite bind_run in Hrun.
  destruct (restoreFaker_run (locale fieldConfig) (faker s)
              (logged (post ++ [EvAction (locatorOf (selector fieldConfig))
                                  (Fill (String_ v));
                                EvInputType (locatorOf (selector fieldConfig));
                                EvTagName (locatorOf (selector fieldConfig))]) s1))
    as (s4 & Hrestore & Htrace4).
  rewrite Hrestore in Hrun. injection Hrun as <- <-.
  rewrite Htrace4. simpl. apply elem_of_app. left.
  apply elem_of_app. right. apply list_elem_of_here.
Qed.

(** ** Further properties of [fillForm] *)

(** X15.  [fillForm] stops at the first field that fails: the error is
    thrown as it is, the object is left in the state of the failure (so no
    later field is touched), and the values filled so far are not
    returned. *)
Theorem fillForm_stops_at_first_failure
    before fieldConfig after s (fieldValues : gmap string Value) s1 e s2 :
  fillForm before s = (Ok fieldValues, s1) ->
  fillField fieldConfig s1 = (Throw e, s2) ->
  fillForm (before ++ fieldConfig :: after) s = (Throw e, s2).
Proof.
  intros Hbefore Hfail. unfold fillForm in *.
  rewrite forEach_app, Hbefore. cbn [forEach].
  rewrite bind_run. unfold fillNext at 1. by rewrite bind_run, Hfail.
Qed.

Lemma fillForm_snoc_inv fieldsConfig fieldConfig s (fieldValues : gmap string Value) s' :
  fillForm (fieldsConfig ++ [fieldConfig]) s = (Ok fieldValues, s') ->
  exists (before : gmap string Value) s1 value,
    fillForm fieldsConfig s = (Ok before, s1)
    /\ fillField fieldConfig s1 = (Ok value, s')
    /\ fieldValues = assign (selectorKey before (selector fieldConfig)) value before.
Proof.
  rewrite fillForm_snoc.
  destruct (fillForm fieldsConfig s) as [[before|?] s1]; [|done].
  unfold fillNext. rewrite bind_run.
  destruct (fillField fieldConfig s1) as [[value|?] s2] eqn:Hfield; [|done].
  cbn [mret M_ret]. intros [= <- <-]. by exists before, s1, value.
Qed.

Lemma stringSelectors_snoc fields f :
  stringSelectors (fields ++ [f]) =
  (stringSelectors fields ++
   match selector f with BySelector sel => [sel] | ByLocator _ => [] end)%list.
Proof.
  unfold stringSelectors. rewrite omap_app. simpl.
  by destruct (selector f).
Qed.

Lemma size_assign key value (object : gmap string Value) :
  (size (assign key value object) <= S (size object))%nat.
Proof.
  unfold assign. destruct (String.eqb key "__proto__"); [lia|].
  rewrite map_size_insert. destruct (object !! key); simpl; lia.
Qed.

Lemma dom_assign key value (object : gmap string Value) k :
  k ∈ dom (assign key value object) <->
  (k = key /\ key <> "__proto__") \/ k ∈ dom object.
Proof.
  unfold assign. destruct (String.eqb_spec key "__proto__") as [->|Hkey].
  - split; [by right|]. by intros [[_ ?]|?].
  - rewrite dom_insert_L, elem_of_union, elem_of_singleton.
    split; (intros [?|?]; [left|right]); tauto.
Qed.

Lemma fillForm_keys_of fieldsConfig :
  forall s (fieldValues : gmap string Value) s',
  fillForm fieldsConfig s = (Ok fieldValues, s') ->
  (size fieldValues <= length fieldsConfig)%nat
  /\ ("__proto__" ∉ dom fieldValues)
  /\ (forall sel, sel ∈ stringSelectors fieldsConfig -> sel <> "__proto__" ->
                  sel ∈ dom fieldValues)
  /\ ((forall f, f ∈ fieldsConfig -> exists sel, selector f = BySelector sel) ->
      forall key, key ∈ dom fieldValues -> key ∈ stringSelectors fieldsConfig).
Proof.
  induction fieldsConfig as [|f fieldsConfig IH] using rev_ind;
    intros s fieldValues s' Hrun.
  - injection Hrun as <- <-. rewrite map_size_empty, dom_empty_L. simpl.
    split; [lia|]. split; [apply not_elem_of_empty|].
    split; [by intros sel ?%elem_of_nil|].
    by intros _ key ?%elem_of_empty.
  - apply fillForm_snoc_inv in Hrun as (before & s1 & value & Hrun & _ & ->).
    destruct (IH _ _ _ Hrun) as (Hsize & Hproto & Hsub & Hdom).
    rewrite stringSelectors_snoc, length_app.
    split; [|split; [|split]].
    + pose proof (size_assign (selectorKey before (selector f)) value before).
      simpl. lia.
    + rewrite dom_assign. intros [[Heq Hne]|?]; [|done]. by rewrite Heq in Hne.
    + intros sel Hsel Hne. apply dom_assign.
      apply elem_of_app in Hsel as [Hsel|Hsel]; [right; by apply Hsub|].
      left. destruct (selector f) as [sel'|]; [|by apply elem_of_nil in Hsel].
      apply list_elem_of_singleton in Hsel as ->. done.
    + intros Hall key Hkey. apply elem_of_app.
      destruct (Hall f) as [sel Hf]; [apply elem_of_app; right; constructor|].
      rewrite Hf in *. apply dom_assign in Hkey as [[-> _]|Hkey].
      * right. simpl. constructor.
      * left. apply Hdom; [|done].
        intros f' Hf'. apply Hall, elem_of_app. by left.
Qed.

(** X16.  The keys of the object [fillForm] returns: there are at most as
    many as fields; [__proto__] is never one of them; every other string
    selector of the list is a key; and when every field is addressed by a
    string selector the keys are exactly those selectors other than
    [__proto__] (fields sharing a selector share one entry). *)
Theorem fillForm_result_keys fieldsConfig s (fieldValues : gmap string Value) s' :
  fillForm fieldsConfig s = (Ok fieldValues, s') ->
  (size fieldValues <= length fieldsConfig)%nat
  /\ ("__proto__" ∉ dom fieldValues)
  /\ (forall sel, sel ∈ stringSelectors fieldsConfig -> sel <> "__proto__" ->
                  sel ∈ dom fieldValues)
  /\ ((forall f, f ∈ fieldsConfig -> exists sel, selector f = BySelector sel) ->
      forall key,
        key ∈ dom fieldValues <->
        key ∈ stringSelectors fieldsConfig /\ key <> "__proto__").
Proof.
  intros Hrun.
  destruct (fillForm_keys_of fieldsConfig s fieldValues s' Hrun)
    as (Hsize & Hproto & Hsub & Hdom).
  split; [done|]. split; [done|]. split; [done|].
  intros Hall key. split.
  - intros Hkey. split; [by apply Hdom|]. by intros ->.
  - intros [Hkey Hne]. by apply Hsub.
Qed.

(** ** The generator after a normal return *)

Lemma fillForm_restores_generator fieldsConfig :
  forall s (fieldValues : gmap string Value) s',
  fillForm fieldsConfig s = (Ok fieldValues, s') -> faker s' = faker s.
Proof.
  induction fieldsConfig as [|f fieldsConfig IH] using rev_ind;
    intros s fieldValues s' Hrun.
  - by injection Hrun as _ <-.
  - apply fillForm_snoc_inv in Hrun as (before & s1 & value & Hrun & Hfield & _).
    apply fillField_restores_generator_on_return in Hfield.
    rewrite Hfield. eauto.
Qed.

Lemma steady_isVisible l : steady (isVisible l).
Proof.
  unfold isVisible. steady_step.
  destruct (resolve l) as [|? [|? ?]]; eauto with steady.
Qed.

Lemma steady_submit submitSelector formFields :
  steady (submit submitSelector formFields).
Proof.
  unfold submit. apply steady_bind; [eauto with steady|intros submitButton].
  apply steady_bind; [apply steady_isVisible|intros [|]]; [eauto with steady|].
  destruct (last formFields); steady_step.
Qed.

(** An [autoFillForm] call that returns has filled the merged scan result,
    returns the map [fillForm] built, and leaves the generator as before. *)
Lemma autoFillForm_returns options s (fieldValues : gmap string Value) s' :
  autoFillForm options s = (Ok fieldValues, s') ->
  let formFields :=
    applyCustomFields (default [] (customFields options))
      (collected (default "form" (formSelector options))
         (default [] (excludeSelectors options))
         (default 50%Z (maxElements options)) fieldSelectors []) in
  (exists s1 s2, fillForm formFields s1 = (Ok fieldValues, s2))
  /\ faker s' = faker s.
Proof.
  intros Hrun formFields. unfold autoFillForm in Hrun.
  rewrite bind_run in Hrun. cbn [getFaker] in Hrun. rewrite bind_run in Hrun.
  destruct (requested (a_locale options)) as [l|] eqn:Hreq.
  - revert Hrun. run. destruct (getLocaleDefinition l) as [d|?]; [|done]. run.
    match goal with
    | |- context [detectFormFields ?a ?b ?c ?s0] =>
        destruct (detectFormFields_run a b c s0) as (scanned & -> & _)
    end.
    fold formFields. run.
    destruct (fillForm formFields _) as [[values|?] s2] eqn:Hfill; [|done]. run.
    destruct (when _ _ _) as [[[]|?] s3]; [|done]. run.
    intros [= <- <-]. split; [eauto|done].
  - revert Hrun. run.
    destruct (detectFormFields_run (default "form" (formSelector options))
                (default [] (excludeSelectors options))
                (default 50%Z (maxElements options)) s) as (scanned & -> & _).
    fold formFields. run.
    destruct (fillForm formFields _) as [[values|?] s2] eqn:Hfill; [|done]. run.
    pose proof (steady_when (default false (submitAfterFill options))
                  (submit (default "button[type='submit']" (submitSelector options))
                     formFields)
                  (steady_submit _ _) s2) as Hsteady.
    destruct (when _ _ _) as [[[]|?] s3]; [|done]. run.
    intros [= <- <-]. split; [eauto|].
    simpl in Hsteady. rewrite Hsteady.
    by rewrite (fillForm_restores_generator _ _ _ _ Hfill).
Qed.

(** X17.  Each public method that returns normally leaves the generator
    that was installed before the call: [fillField], [fillForm] and
    [autoFillForm] restore [this.faker] on the returning path, locale
    override or not. *)
Theorem public_methods_restore_generator_on_return :
  (forall fieldConfig s value s',
     fillField fieldConfig s = (Ok value, s') -> faker s' = faker s)
  /\ (forall fieldsConfig s (fieldValues : gmap string Value) s',
        fillForm fieldsConfig s = (Ok fieldValues, s') -> faker s' = faker s)
  /\ (forall options s (fieldValues : gmap string Value) s',
        autoFillForm options s = (Ok fieldValues, s') -> faker s' = faker s).
Proof.
  split; [|split].
  - apply fillField_restores_generator_on_return.
  - intros fieldsConfig. apply fillForm_restores_generator.
  - intros options s fieldValues s' Hrun.
    by destruct (autoFillForm_returns options s fieldValues s' Hrun) as [_ ?].
Qed.

(** ** Further properties of [autoFillForm] *)

Lemma findIndex_lookup {A} (p : A -> bool) xs i :
  findIndex p xs = Some i -> exists x, xs !! i = Some x /\ p x = true.
Proof.
  revert i. induction xs as [|x xs IH]; intros i; simpl; [done|].
  destruct (p x) eqn:Hp.
  - intros [= <-]. eauto.
  - destruct (findIndex p xs) as [j|]; [|done]. intros [= <-].
    destruct (IH j eq_refl) as (y & ? & ?). eauto.
Qed.

Lemma findIndex_none {A} (p : A -> bool) xs :
  Forall (fun x => p x = false) xs -> findIndex p xs = None.
Proof.
  induction 1 as [|x xs Hx _ IH]; simpl; [done|]. by rewrite Hx, IH.
Qed.

Lemma applyCustomFields_selectors customFields :
  forall formFields,
  selector <$> applyCustomFields customFields formFields = selector <$> formFields.
Proof.
  induction customFields as [|[sel o] customFields IH]; intros formFields;
    simpl; [done|].
  rewrite IH.
  destruct (findIndex (selectorIs sel) formFields) as [i|]; [|done].
  destruct (formFields !! i) as [f|] eqn:Hf; [|done].
  rewrite list_fmap_insert. apply list_insert_id.
  by rewrite list_lookup_fmap, Hf.
Qed.

(** X18.  Merging [customFields] never adds, drops, reorders or re-addresses
    a descriptor: the selectors of the merged list are those of the scanned
    list, in the same order.  Entries whose key is the selector of no
    descriptor are ignored. *)
Theorem applyCustomFields_keeps_selectors customFields formFields :
  selector <$> applyCustomFields customFields formFields = selector <$> formFields
  /\ length (applyCustomFields customFields formFields) = length formFields
  /\ ((forall sel o f, (sel, o) ∈ customFields -> f ∈ formFields ->
                       selector f <> BySelector sel) ->
      applyCustomFields customFields formFields = formFields).
Proof.
  split; [apply applyCustomFields_selectors|]. split.
  - rewrite <- (length_fmap selector), applyCustomFields_selectors.
    apply length_fmap.
  - revert formFields.
    induction customFields as [|[sel o] customFields IH]; intros formFields H;
      simpl; [done|].
    rewrite findIndex_none.
    + apply IH. intros sel' o' f Hin. apply (H sel' o' f). by right.
    + apply Forall_forall. intros f Hf. unfold selectorIs.
      specialize (H sel o f ltac:(left) Hf).
      destruct (selector f) as [sel'|]; [|done].
      apply String.eqb_neq. congruence.
Qed.

Lemma stringSelectors_fmap fields :
  stringSelectors fields =
  omap (fun t => match t with BySelector sel => Some sel | ByLocator _ => None end)
    (selector <$> fields).
Proof.
  unfold stringSelectors. induction fields as [|f fields IH]; [done|].
  rewrite fmap_cons. cbn [omap list_omap]. by rewrite <- IH.
Qed.

Lemma length_append a b :
  String.length (a +:+ b) = (String.length a + String.length b)%nat.
Proof. induction a as [|c a IH]; simpl; [done|]. by rewrite IH. Qed.

(** No synthesized selector is the name [__proto__]. *)
Lemma synthesize_not_proto formSelector elementSelector id name i :
  synthesize formSelector elementSelector id name i <> "__proto__".
Proof.
  unfold synthesize. destruct (truthy id); [discriminate|].
  destruct name as [|c name]; cbn [truthy];
    intros H; apply (f_equal String.length) in H;
    rewrite !length_append in H; simpl in H; lia.
Qed.

Lemma elem_of_stringSelectors sel fields :
  sel ∈ stringSelectors fields <->
  exists f, f ∈ fields /\ selector f = BySelector sel.
Proof.
  unfold stringSelectors. rewrite list_elem_of_omap. split.
  - intros (f & Hf & Hsel). exists f. split; [done|].
    destruct (selector f); congruence.
  - intros (f & Hf & Hsel). exists f. split; [done|]. by rewrite Hsel.
Qed.

Lemma collected_plain_selectors formSelector excludeSelectors maxElements kinds :
  Forall (fun f => exists sel, selector f = BySelector sel /\ sel <> "__proto__")
    (collected formSelector excludeSelectors maxElements kinds []).
Proof.
  apply collected_Forall; [|constructor].
  intros k. unfold contribution. apply Forall_fmap, Forall_forall.
  intros d Hd. apply list_elem_of_filter in Hd as [_ Hd].
  apply list_elem_of_lookup in Hd as [i Hi].
  rewrite list_lookup_imap in Hi.
  destruct (examined _ _ _ !! i) as [e|]; [|done].
  injection Hi as <-. simpl. eexists. split; [reflexivity|].
  apply synthesize_not_proto.
Qed.

(** X19.  The map [autoFillForm] returns is keyed by the synthesized
    selectors: its keys are exactly the selectors of the descriptors the
    scanner collected, whatever [customFields] holds. *)
Theorem autoFillForm_result_is_keyed_by_synthesized_selectors
    options s (fieldValues : gmap string Value) s' :
  autoFillForm options s = (Ok fieldValues, s') ->
  dom fieldValues =
  list_to_set
    (stringSelectors
       (collected (default "form" (formSelector options))
          (default [] (excludeSelectors options))
          (default 50%Z (maxElements options)) fieldSelectors [])).
Proof.
  intros Hrun.
  destruct (autoFillForm_returns options s fieldValues s' Hrun)
    as [(s1 & s2 & Hfill) _].
  destruct (fillForm_keys_of _ _ _ _ Hfill) as (_ & _ & Hsub & Hdom).
  pose proof (collected_plain_selectors (default "form" (formSelector options))
                (default [] (excludeSelectors options))
                (default 50%Z (maxElements options)) fieldSelectors) as Hall.
  rewrite Forall_forall in Hall.
  rewrite !stringSelectors_fmap, applyCustomFields_selectors,
    <- !stringSelectors_fmap in Hsub, Hdom.
  apply set_eq. intros key. rewrite elem_of_list_to_set. split.
  - apply Hdom. intros f Hf.
    assert (Hsel : selector f ∈ selector <$>
              collected (default "form" (formSelector options))
                (default [] (excludeSelectors options))
                (default 50%Z (maxElements options)) fieldSelectors []).
    { rewrite <- (applyCustomFields_selectors (default [] (customFields options))).
      by apply list_elem_of_fmap_2. }
    apply list_elem_of_fmap in Hsel as (g & Hg & Hin).
    destruct (Hall g Hin) as (sel & Hsel & _).
    exists sel. congruence.
  - intros Hkey. apply Hsub; [done|].
    apply elem_of_stringSelectors in Hkey as (f & Hf & Hsel).
    destruct (Hall f Hf) as (sel & Hsel' & Hne). congruence.
Qed.

(** ** The date part of a timestamp *)

Lemma splitHead_prefix sep s : exists rest, s = splitHead sep s +:+ rest.
Proof.
  induction s as [|c s [rest IH]]; simpl; [by exists EmptyString|].
  destruct (Ascii.eqb c sep); [by eexists|].
  exists rest. change (String c s = String c (splitHead sep s +:+ rest)).
  by f_equal.
Qed.

Lemma splitHead_free sep s :
  includes (splitHead sep s) (String sep EmptyString) = false.
Proof.
  induction s as [|c s IH]; simpl; [done|].
  destruct (Ascii.eqb c sep) eqn:Hc; simpl; [done|].
  rewrite IH, orb_false_r.
  destruct (ascii_dec sep c) as [->|]; [|done].
  by rewrite Ascii.eqb_refl in Hc.
Qed.

Lemma splitHead_spec sep s :
  s = splitHead sep s
  \/ exists rest, s = splitHead sep s +:+ String sep rest.
Proof.
  induction s as [|c s IH]; simpl; [by left|].
  destruct (Ascii.eqb_spec c sep) as [->|_].
  - right. by exists s.
  - destruct IH as [IH|[rest IH]].
    + left. by f_equal.
    + right. exists rest.
      change (String c s = String c (splitHead sep s +:+ String sep rest)).
      by f_equal.
Qed.

(** X20.  A DATE value is the date part of the ISO timestamp of Faker's
    recent date: the part of [toISOString()] before its first [T] (the
    whole of it if it holds no [T]). *)
Theorem date_value_is_the_date_part fieldConfig s :
  type fieldConfig = DATE ->
  valueGenerator fieldConfig = None ->
  let iso := toISOString (fakerDateRecent (faker s) (draws s)) in
  exists v s',
    generateValue fieldConfig s = (Ok (VString v), s')
    /\ ~ occursIn "T" v
    /\ (iso = v \/ exists rest, iso = v +:+ "T" +:+ rest).
Proof.
  intros Htype Hgen iso. unfold generateValue. rewrite Hgen, Htype. run.
  eexists _, _. split; [reflexivity|]. split.
  - rewrite <- includes_spec. by rewrite splitHead_free.
  - apply splitHead_spec.
Qed.

(** ** Positional selectors *)

Lemma append_last_inj c a b :
  a +:+ String c EmptyString = b +:+ String c EmptyString -> a = b.
Proof.
  revert b. induction a as [|x a IH]; intros [|y b]; simpl; intros H.
  - done.
  - injection H as _ H. by destruct b.
  - injection H as _ H. by destruct a.
  - injection H as -> H. f_equal. by apply IH.
Qed.

(** X21.  For elements with neither id nor name the synthesized selector
    is positional, and distinct positions of a kind get distinct
    selectors. *)
Theorem positional_selectors_are_distinct formSelector elementSelector id name i j :
  truthy id = false -> truthy name = false ->
  synthesize formSelector elementSelector id name i =
  synthesize formSelector elementSelector id name j ->
  i = j.
Proof.
  intros Hid Hname. unfold synthesize. rewrite Hid, Hname. intros H.
  do 4 apply (inj (String.append _)) in H.
  apply (append_last_inj ")"%char) in H.
  apply (inj pretty) in H. lia.
Qed.

End Properties.

(** ** The claims on the example pages *)

Lemma worldOf_contract p : fakerIntContract (worldOf p).
Proof.
  split.
  - intros f lo hi k n. simpl. destruct (Z.ltb_spec hi lo); [done|].
    intros [= <-]. pose proof (Z.mod_pos_bound (Z.of_nat k) (hi - lo + 1)). lia.
  - intros f lo hi k Hle. simpl. destruct (Z.ltb_spec hi lo); [lia|]. eauto.
Qed.

(** Sanity checks of the model on the example pages. *)

Example scan_crowdedPage_with_room :
  descriptorCount (W := worldOf crowdedPage) "form" [] 50 initial = Some 4%nat.
Proof. by vm_compute. Qed.

Example scan_crowdedPage_stops_between_kinds :
  descriptorCount (W := worldOf crowdedPage) "form" [] 2 initial = Some 2%nat.
Proof. by vm_compute. Qed.

Example classify_prefers_declared_type :
  classify "input" "email" "phone" "city" "zip" "company" "notes" = EMAIL.
Proof. by vm_compute. Qed.

Example classify_scans_name_before_id :
  classify "input" "search" "user_phone" "city" EmptyString EmptyString
    EmptyString = PHONE.
Proof. by vm_compute. Qed.

Example classify_first_table_entry_wins :
  classify "input" EmptyString "first_name" EmptyString EmptyString EmptyString
    EmptyString = NAME
  /\ classify "input" EmptyString "email_address" EmptyString EmptyString
       EmptyString EmptyString = EMAIL.
Proof. by vm_compute. Qed.

Example classify_defaults_to_text :
  classify "input" "search" "q" "q" EmptyString EmptyString EmptyString = TEXT.
Proof. by vm_compute. Qed.

Example autoFillForm_presses_enter_when_submit_is_hidden :
  actionsOf
    (trace (autoFillForm (W := worldOf invisibleSubmitPage)
              (autoFill [] 50 true None) initial).2) =
  [(Loc "#a", Press "Enter"); (Loc "#a", Fill "lorem")].
Proof. by vm_compute. Qed.

Example fillField_restores_generator :
  faker (fillField (W := worldOf crowdedPage)
           (withLocale "en" (field (BySelector "#a") TEXT)) initial).2 =
  faker initial.
Proof. by vm_compute. Qed.

(** C1, at a failing input.  On a form with two inputs and two dropdowns
    and [maxElements = 3] the scanner returns four descriptors: the cap is
    applied to each kind on its own, and the total is only compared with it
    between kinds. *)
Theorem detectFormFields_exceeds_maxElements :
  exists formFields s',
    detectFormFields (W := worldOf crowdedPage) "form" [] 3 initial =
    (Ok formFields, s')
    /\ length formFields = 4%nat
    /\ (3 < Z.of_nat (length formFields))%Z.
Proof. eexists _, _. split; [by vm_compute|]. split; [done|]. simpl. lia. Qed.

(** C2, at a failing input.  Filling a field whose selector matches no
    element, under a locale override, throws while the temporary generator
    is installed: after the call the object holds a generator other than
    the one it held before. *)
Theorem fillField_leaves_temporary_generator_on_throw :
  exists s',
    fillField (W := worldOf crowdedPage)
      (withLocale "en" (field (BySelector "#missing") TEXT)) initial =
    (Throw (TimeoutError (Loc "#missing")), s')
    /\ faker initial = {| instance := 0; definition := en |}
    /\ faker s' = {| instance := 1; definition := en |}
    /\ faker s' <> faker initial.
Proof. eexists. split; [by vm_compute|]. by repeat split. Qed.

(** C3 as stated fails.  With [maxElements = 1] and [#captcha] excluded, a
    form whose first input is the captcha and whose second input is [#a]
    yields no descriptor, although the remaining candidate alone, under
    the same budget, yields one. *)
Lemma excluded_candidate_consumes_budget :
  descriptorCount (W := worldOf captchaPage) "form" ["#captcha"] 1 initial
    = Some 0%nat
  /\ descriptorCount (W := worldOf captchaFreePage) "form" ["#captcha"] 1 initial
    = Some 1%nat
  /\ descriptorCount (W := worldOf captchaPage) "form" ["#captcha"] 1 initial
     <> descriptorCount (W := worldOf captchaFreePage) "form" ["#captcha"] 1 initial.
Proof. by vm_compute. Qed.

(** C4, at a failing input.  On an input whose declared type is
    [constructor] and whose name is [phone], the classifier returns the
    member [constructor] that its table inherits from [Object.prototype]:
    [constructor] is not a keyword of the table, so the text signals
    should have been scanned, and the name gives PHONE.  The scanner
    hands that value on as the category of the descriptor. *)
Theorem determineFieldType_returns_inherited_member :
  Forall (fun entry => entry.1 <> "constructor") fieldTypeMappings
  /\ FirstMatch "phone" fieldTypeMappings (Some PHONE)
  /\ fst (determineFieldType (W := worldOf constructorPage)
            (Nth (Loc (inputsOf "form")) 0)
            "constructor" "phone" EmptyString EmptyString EmptyString EmptyString
            initial) = Ok (Inherited "constructor")
  /\ fst (detectFormFields (W := worldOf constructorPage) "form" [] 50 initial) =
     Ok [detected (inputKind +:+ "[name=" +:+ dq +:+ "phone" +:+ dq +:+ "]")
           (Inherited "constructor")]
  /\ Inherited "constructor" <> PHONE.
Proof.
  split; [apply (bool_decide_unpack _); by vm_compute|].
  split; [|by vm_compute].
  unfold fieldTypeMappings.
  repeat (apply FirstMatch_later;
          [rewrite <- includes_spec; by vm_compute|]).
  apply FirstMatch_here. rewrite <- includes_spec. by vm_compute.
Qed.

Lemma determineFieldType_strict_priority_witness :
  fst (determineFieldType (W := worldOf crowdedPage) (Loc "#b")
         "email" "phone" "city" "zip" "company" "notes" initial) = Ok EMAIL
  /\ fst (determineFieldType (W := worldOf constructorPage)
            (Nth (Loc (inputsOf "form")) 0)
            "Constructor" "phone" EmptyString EmptyString EmptyString EmptyString
            initial) = Ok (Inherited "constructor").
Proof.
  split.
  - destruct (determineFieldType_strict_priority (W := worldOf crowdedPage)
                (Loc "#b") inputB "email" "phone" "city" "zip" "company" "notes"
                initial eq_refl) as (_ & _ & H).
    apply H; [done|done|]. simpl. tauto.
  - destruct (determineFieldType_strict_priority (W := worldOf constructorPage)
                (Nth (Loc (inputsOf "form")) 0) inputConstructor
                "Constructor" "phone" EmptyString EmptyString EmptyString
                EmptyString initial eq_refl) as (_ & _ & H).
    apply H; [done|done|]. simpl. tauto.
Defined.

Lemma number_value_within_bounds_witness :
  exists s',
    generateValue (W := worldOf crowdedPage)
      (withBounds (Some 5%Z) (Some 5%Z) (field (BySelector "#a") NUMBER)) initial =
    (Ok (VNumber 5), s').
Proof.
  apply (number_value_within_bounds (W := worldOf crowdedPage)
           (withBounds (Some 5%Z) (Some 5%Z) (field (BySelector "#a") NUMBER))
           initial);
    [reflexivity|reflexivity|apply worldOf_contract|reflexivity|reflexivity].
Defined.

Lemma select_without_options_yields_empty_string_witness :
  exists s',
    generateValue (W := worldOf crowdedPage) (field (BySelector "#c") SELECT)
      initial = (Ok (VString EmptyString), s').
Proof.
  apply (select_without_options_yields_empty_string (W := worldOf crowdedPage)
           (field (BySelector "#c") SELECT) selectC initial);
    [reflexivity|reflexivity|by left|reflexivity|].
  intros os [= <-]. constructor.
Defined.

Lemma unsupported_locale_aborts_before_any_interaction_witness :
  fillField (W := worldOf crowdedPage)
    (withLocale "fr" (field (BySelector "#a") TEXT)) initial =
  (Throw (UnsupportedLocale "fr"), initial)
  /\ autoFillForm (W := worldOf crowdedPage) (autoFill [] 50 false (Some "fr"))
       initial =
     (Throw (UnsupportedLocale "fr"), initial).
Proof.
  destruct (unsupported_locale_aborts_before_any_interaction
              (W := worldOf crowdedPage) "fr" initial ltac:(done)) as [Hfield Hform].
  split; [by apply Hfield|by apply Hform].
Defined.

(** C8, at a failing input.  A field addressed by the string selector
    [__proto__] is filled, yet the object [fillForm] returns holds no
    entry for it: the assignment under that name stores nothing. *)
Theorem fillForm_stores_nothing_under_proto :
  exists s',
    fillForm (W := worldOf protoPage) [field (BySelector "__proto__") TEXT]
      initial = (Ok ∅, s')
    /\ actionsOf (trace s') = [(Loc "__proto__", Fill "lorem")]
    /\ fst (fillField (W := worldOf protoPage)
              (field (BySelector "__proto__") TEXT) initial) = Ok (VString "lorem")
    /\ (∅ : gmap string Value) !! "__proto__" = None.
Proof. eexists. split; [by vm_compute|]. by repeat split. Qed.

Lemma fillForm_keys_witness :
  exists fieldValues : gmap string Value,
    fillForm (W := worldOf crowdedPage)
      [field (BySelector "#a") NUMBER; field (ByLocator (Loc "#b")) TEXT] initial =
    (Ok fieldValues,
     (fillField (W := worldOf crowdedPage) (field (ByLocator (Loc "#b")) TEXT)
        (fillField (W := worldOf crowdedPage) (field (BySelector "#a") NUMBER)
           initial).2).2)
    /\ fieldValues = <["field-1" := VString "lorem"]> {["#a" := VNumber 1]}
    /\ dom fieldValues = {["#a"; "field-1"]}
    /\ fieldValues !! "#a" = Some (VNumber 1)
    /\ fieldValues !! "field-1" = Some (VString "lorem").
Proof.
  apply (proj2 (proj2 (fillForm_keys (W := worldOf crowdedPage)))
           (field (BySelector "#a") NUMBER) (field (ByLocator (Loc "#b")) TEXT)
           (Loc "#b") initial (VNumber 1)
           (fillField (W := worldOf crowdedPage) (field (BySelector "#a") NUMBER)
              initial).2
           (VString "lorem"));
    [reflexivity|reflexivity|by vm_compute|by vm_compute].
Defined.

Lemma file_input_without_path_is_filled_as_text_witness :
  exists r post,
    applyValueToField (W := worldOf invisibleSubmitPage) (Loc "#upload")
      (field (BySelector "#upload") FILE) (VString "lorem") initial =
    (r, logged (post ++ [EvAction (Loc "#upload") (Fill "lorem");
                         EvInputType (Loc "#upload"); EvTagName (Loc "#upload")])
          initial)
    /\ Forall (postAction (Loc "#upload")) post.
Proof.
  apply (file_input_without_path_is_filled_as_text
           (W := worldOf invisibleSubmitPage) (Loc "#upload") inputUpload
           (field (BySelector "#upload") FILE) (VString "lorem") initial);
    reflexivity.
Defined.

Lemma submit_clicks_visible_button_else_presses_enter_witness :
  let W := worldOf invisibleSubmitPage in
  let options := autoFill [] 50 true None in
  let r := (autoFillForm options initial).1 in
  let s' := (autoFillForm options initial).2 in
  let button := Loc "button[type='submit']" in
  let formFields := [field (BySelector "#a") TEXT] in
  (exists l, requested (a_locale options) = Some l /\ l <> "en"
     /\ r = Throw (UnsupportedLocale l) /\ s' = initial)
  \/ (exists e s1, fillForm formFields s1 = (Throw e, s') /\ r = Throw e)
  \/ (exists s1 fieldValues s2 scanned submitted,
        trace s1 = (scanned ++ trace initial)%list /\ actionsOf scanned = []
        /\ fillForm formFields s1 = (Ok fieldValues, s2)
        /\ trace s' = (submitted ++ trace s2)%list
        /\ ((exists e, resolve button = [e] /\ visible e = true) ->
            actionsOf submitted = [(button, Click)])
        /\ (resolve button = [] \/
            (exists e, resolve button = [e] /\ visible e = false) ->
            match last formFields with
            | Some lastField =>
                actionsOf submitted =
                [(locatorOf (selector lastField), Press "Enter")]
            | None =>
                actionsOf submitted = []
                /\ exists evs,
                     trace s' = (evs ++ trace initial)%list /\ actionsOf evs = []
            end)).
Proof.
  intros W options r s' button formFields.
  apply (submit_clicks_visible_button_else_presses_enter (W := W) options
           initial r s'); [reflexivity|by vm_compute].
Defined.

(** ** The further properties on the example pages *)

(** The bound of X1 is reached: one input, two dropdowns, [maxElements = 2]. *)
Example scan_lopsidedPage_reaches_the_bound :
  descriptorCount (W := worldOf lopsidedPage) "form" [] 2 initial = Some 3%nat.
Proof. by vm_compute. Qed.

Example scan_prefixPage_excluding_a :
  fst (detectFormFields (W := worldOf prefixPage) "form" ["#a"] 50 initial) =
  Ok [detected "#color" SELECT].
Proof. by vm_compute. Qed.

Lemma detectFormFields_only_reads_witness :
  exists evs,
    trace (detectFormFields (W := worldOf crowdedPage) "form" [] 50 initial).2 =
    (evs ++ trace initial)%list
    /\ actionsOf evs = []
    /\ faker (detectFormFields (W := worldOf crowdedPage) "form" [] 50 initial).2 =
       faker initial
    /\ created (detectFormFields (W := worldOf crowdedPage) "form" [] 50 initial).2 =
       created initial
    /\ draws (detectFormFields (W := worldOf crowdedPage) "form" [] 50 initial).2 =
       draws initial.
Proof.
  apply (detectFormFields_only_reads (W := worldOf crowdedPage) "form" [] 50%Z
           initial
           (detectFormFields (W := worldOf crowdedPage) "form" [] 50 initial).1).
  apply surjective_pairing.
Defined.

Lemma empty_exclude_string_excludes_everything_witness :
  exists s',
    detectFormFields (W := worldOf crowdedPage) "form" [EmptyString] 50 initial =
    (Ok [], s').
Proof.
  apply (empty_exclude_string_excludes_everything (W := worldOf crowdedPage)).
  by left.
Defined.

Lemma exclude_entry_matches_longer_ids_witness :
  exists formFields s',
    detectFormFields (W := worldOf prefixPage) "form" ["#a"] 50 initial =
    (Ok formFields, s')
    /\ Forall (fun f => selector f <> BySelector "#ab") formFields.
Proof.
  apply (exclude_entry_matches_longer_ids (W := worldOf prefixPage)
           "form" ["#a"] 50%Z initial "a" "b").
  by left.
Defined.

Lemma getRandomSelectOption_picks_usable_option_witness :
  fst (getRandomSelectOption (W := worldOf prefixPage) (BySelector "#color")
         initial) = Ok "red"
  /\ exists os o,
       selectOptions selectColor = Some os /\ o ∈ os /\ optionValue o = "red"
       /\ optionDisabled o = false.
Proof.
  destruct (getRandomSelectOption_picks_usable_option (W := worldOf prefixPage)
              (BySelector "#color") selectColor initial eq_refl)
    as (v & s' & Hrun & Hcase).
  assert (Hv : v = "red") by (vm_compute in Hrun; congruence).
  rewrite Hrun, Hv in *. split; [reflexivity|].
  destruct Hcase as [(_ & Hempty & _)|(os & o & Hos & Ho & Hvalue & _ & Hd & _)];
    [discriminate|].
  by exists os, o.
Defined.

Lemma select_with_options_picks_a_listed_option_witness :
  exists v s',
    generateValue (W := worldOf crowdedPage)
      (withOptions ["small"; "large"] (field (BySelector "#c") SELECT)) initial =
    (Ok (VString v), s')
    /\ v ∈ ["small"; "large"]
    /\ trace s' = trace initial
    /\ draws s' = S (draws initial)
    /\ faker s' = faker initial.
Proof.
  apply (select_with_options_picks_a_listed_option (W := worldOf crowdedPage)
           (withOptions ["small"; "large"] (field (BySelector "#c") SELECT))
           "small" ["large"] initial);
    reflexivity.
Defined.

Lemma generated_value_kind_follows_category_witness :
  exists n : Z,
    (generateValue (W := worldOf crowdedPage) (field (BySelector "#a") NUMBER)
       initial).1 = Ok (VNumber n).
Proof.
  destruct (generated_value_kind_follows_category (W := worldOf crowdedPage)
              (field (BySelector "#a") NUMBER) initial (VNumber 1)
              (generateValue (W := worldOf crowdedPage)
                 (field (BySelector "#a") NUMBER) initial).2
              eq_refl eq_refl) as [n Hn].
  exists n. by rewrite <- Hn.
Defined.

Lemma applyValueToField_orders_post_actions_witness :
  exists evs main,
    applyValueToField (W := worldOf crowdedPage) (Loc "#a")
      (withPostActions (field (BySelector "#a") TEXT)) (VString "lorem") initial =
    (Ok tt, logged evs initial)
    /\ rev (actionsOf evs) =
       (main ++ [(Loc "#a", Click); (Loc "#a", Press "Enter"); (Loc "#a", Blur)])%list
    /\ (length main <= 1)%nat.
Proof.
  apply (applyValueToField_orders_post_actions (W := worldOf crowdedPage)
           (Loc "#a") inputA (withPostActions (field (BySelector "#a") TEXT))
           (VString "lorem") initial);
    [reflexivity|intros a; reflexivity].
Defined.

Lemma applyValueToField_dispatches_on_the_live_element_witness :
  exists r post main,
    applyValueToField (W := worldOf crowdedPage) (Loc "#c")
      (field (BySelector "#c") SELECT) (VString "small") initial =
    (r, logged (post ++ main ++ [EvInputType (Loc "#c"); EvTagName (Loc "#c")])
          initial)
    /\ Forall (postAction (Loc "#c")) post
    /\ ("select" = "select" ->
        main = [EvAction (Loc "#c") (SelectOption "small")])
    /\ ("select" = "input" -> main = []).
Proof.
  apply (applyValueToField_dispatches_on_the_live_element
           (W := worldOf crowdedPage) (Loc "#c") selectC
           (field (BySelector "#c") SELECT) (VString "small") initial);
    [reflexivity|by left].
Defined.

Lemma fillField_on_unresolved_target_throws_without_acting_witness :
  exists err s' evs,
    fillField (W := worldOf crowdedPage) (field (BySelector "#missing") TEXT)
      initial = (Throw err, s')
    /\ trace s' = (evs ++ trace initial)%list
    /\ actionsOf evs = [].
Proof.
  apply (fillField_on_unresolved_target_throws_without_acting
           (W := worldOf crowdedPage) (field (BySelector "#missing") TEXT) initial).
  intros e. discriminate.
Defined.

Lemma fillField_propagates_valueGenerator_error_witness :
  exists s',
    fillField (W := worldOf crowdedPage)
      (withGenerator (fun _ => Throw (CallerError "no data"))
         (field (BySelector "#a") TEXT)) initial =
    (Throw (CallerError "no data"), s')
    /\ trace s' = [EvLocator "#a"].
Proof.
  apply (fillField_propagates_valueGenerator_error (W := worldOf crowdedPage)
           (withGenerator (fun _ => Throw (CallerError "no data"))
              (field (BySelector "#a") TEXT))
           (fun _ => Throw (CallerError "no data")) (CallerError "no data") initial);
    [reflexivity|reflexivity|intros l; discriminate].
Defined.

Lemma fillField_returns_the_value_it_filled_witness :
  EvAction (Loc "#a") (Fill "lorem") ∈
  trace (fillField (W := worldOf crowdedPage) (field (BySelector "#a") TEXT)
           initial).2.
Proof.
  apply (fillField_returns_the_value_it_filled (W := worldOf crowdedPage)
           (field (BySelector "#a") TEXT) inputA initial (VString "lorem"));
    [reflexivity|discriminate| |by vm_compute].
  intros t [= <-]. by repeat split.
Defined.

Lemma fillForm_stops_at_first_failure_witness :
  fillForm (W := worldOf crowdedPage)
    ([field (BySelector "#a") TEXT] ++
     field (BySelector "#missing") TEXT :: [field (BySelector "#b") TEXT])
    initial =
  (Throw (TimeoutError (Loc "#missing")),
   (fillField (W := worldOf crowdedPage) (field (BySelector "#missing") TEXT)
      (fillField (W := worldOf crowdedPage) (field (BySelector "#a") TEXT)
         initial).2).2).
Proof.
  apply (fillForm_stops_at_first_failure (W := worldOf crowdedPage)
           [field (BySelector "#a") TEXT] (field (BySelector "#missing") TEXT)
           [field (BySelector "#b") TEXT] initial {["#a" := VString "lorem"]}
           (fillField (W := worldOf crowdedPage) (field (BySelector "#a") TEXT)
              initial).2);
    by vm_compute.
Defined.

Lemma fillForm_result_keys_witness :
  exists fieldValues : gmap string Value,
    (fillForm (W := worldOf protoPage)
       [field (BySelector "#a") TEXT; field (BySelector "__proto__") TEXT]
       initial).1 = Ok fieldValues
    /\ (size fieldValues <= 2)%nat
    /\ "#a" ∈ dom fieldValues
    /\ ("__proto__" ∉ dom fieldValues)
    /\ forall key, key ∈ dom fieldValues -> key = "#a".
Proof.
  destruct (fillForm (W := worldOf protoPage)
              [field (BySelector "#a") TEXT; field (BySelector "__proto__") TEXT]
              initial)
    as [[fieldValues|e] s'] eqn:Hrun; [|by vm_compute in Hrun].
  destruct (fillForm_result_keys (W := worldOf protoPage) _ _ _ _ Hrun)
    as (Hsize & Hproto & Hkeys & Hexact).
  exists fieldValues. split; [done|]. split; [exact Hsize|].
  split; [apply Hkeys; [by left|discriminate]|]. split; [exact Hproto|].
  intros key Hkey. apply Hexact in Hkey as [Hkey Hne].
  - simpl in Hkey. apply elem_of_cons in Hkey as [?|Hkey]; [done|].
    by apply list_elem_of_singleton in Hkey.
  - intros f Hf. apply elem_of_cons in Hf as [->|Hf]; [by eexists|].
    apply list_elem_of_singleton in Hf as ->. by eexists.
Defined.

Lemma public_methods_restore_generator_on_return_witness :
  faker (fillField (W := worldOf crowdedPage)
           (withLocale "en" (field (BySelector "#a") TEXT)) initial).2 =
  faker initial.
Proof.
  apply (proj1 (public_methods_restore_generator_on_return
                  (W := worldOf crowdedPage))
           (withLocale "en" (field (BySelector "#a") TEXT)) initial
           (VString "lorem")).
  by vm_compute.
Defined.

Lemma autoFillForm_result_is_keyed_by_synthesized_selectors_witness :
  exists fieldValues : gmap string Value,
    (autoFillForm (W := worldOf crowdedPage) (autoFill [] 50 false None)
       initial).1 = Ok fieldValues
    /\ dom fieldValues = list_to_set ["#a"; "#b"; "#c"; "#d"].
Proof.
  destruct (autoFillForm (W := worldOf crowdedPage) (autoFill [] 50 false None)
              initial) as [[fieldValues|e] s'] eqn:Hrun; [|by vm_compute in Hrun].
  exists fieldValues. split; [done|].
  apply (autoFillForm_result_is_keyed_by_synthesized_selectors
           (W := worldOf crowdedPage)) in Hrun.
  exact Hrun.
Defined.

Lemma date_value_is_the_date_part_witness :
  fst (generateValue (W := worldOf crowdedPage) (field (BySelector "#a") DATE)
         initial) = Ok (VString "2024-05-17")
  /\ ~ occursIn "T" "2024-05-17".
Proof.
  destruct (date_value_is_the_date_part (W := worldOf crowdedPage)
              (field (BySelector "#a") DATE) initial eq_refl eq_refl)
    as (v & s' & Hrun & Hfree & _).
  assert (Hv : v = "2024-05-17") by (vm_compute in Hrun; congruence).
  rewrite Hrun, Hv in *. by split.
Defined.

Lemma positional_selectors_are_distinct_witness :
  synthesize "form" "select" EmptyString EmptyString 0 <>
  synthesize "form" "select" EmptyString EmptyString 1.
Proof.
  intros H.
  apply (positional_selectors_are_distinct "form" "select" EmptyString
           EmptyString 0 1) in H; [discriminate|reflexivity|reflexivity].
Defined.
